(** * autotel: functional API, name inference and the PostHog subscriber

    A shallow embedding of [src/autotel/functional.py] and
    [src/autotel/subscribers/posthog.py], together with the parts of the
    OpenTelemetry API, of [functools.lru_cache] and of the HTTP client that
    this code drives, and the properties the specification states about them. *)

From Stdlib Require Import ZArith Ascii String DecimalString.
From stdpp Require Import base option list gmap fin_maps strings.

Local Open Scope Z_scope.

(** ** Python values, exceptions and outcomes *)

Module Py.

(** The objects that travel through the instrumented code: [None], booleans,
    integers and text. *)
Inductive pyval : Type :=
  | PyNone
  | PyBool (b : bool)
  | PyInt (z : Z)
  | PyStr (s : string).

Global Instance pyval_eq_dec : EqDecision pyval.
Proof. solve_decision. Defined.

(** [str(v)] *)
Definition py_str (v : pyval) : string :=
  match v with
  | PyNone => "None"
  | PyBool true => "True"
  | PyBool false => "False"
  | PyInt z => NilZero.string_of_int (Z.to_int z)
  | PyStr s => s
  end.

Definition is_str (v : pyval) : Prop :=
  match v with PyStr _ => True | _ => False end.

(** Truth value of an optional text argument: [None] and the empty text are
    falsy. *)
Definition truthy (o : option string) : bool :=
  match o with
  | Some (String _ _) => true
  | _ => false
  end.

(** [a or b] on optional texts *)
Definition py_or (a b : option string) : option string :=
  if truthy a then a else b.

(** An exception object, an instance of [Exception]: its class and its
    message, [str(e)]. *)
Record exn : Type := Exn { exn_type : string; exn_msg : string }.

Global Instance exn_eq_dec : EqDecision exn.
Proof. solve_decision. Defined.

(** How a call ends: with a value or with a raised exception. *)
Inductive outcome (A : Type) : Type :=
  | Return (a : A)
  | Raise (e : exn).
Global Arguments Return {A} a.
Global Arguments Raise {A} e.

Definition is_return {A} (o : outcome A) : bool :=
  match o with Return _ => true | Raise _ => false end.

End Py.
Export Py.

(** ** Text: [str.strip], [str.rstrip] and the assignment pattern *)

Module Text.

(** Code points below 128 for which [str.isspace] holds; the same class is
    what [\s] matches and what [strip()] removes. *)
Definition is_space (c : ascii) : bool :=
  let n := N_of_ascii c in
  ((9 <=? n) && (n <=? 13) || (28 <=? n) && (n <=? 32))%N.

(** [\w] on code points below 128: letters, digits and the underscore. *)
Definition is_word (c : ascii) : bool :=
  let n := N_of_ascii c in
  ((48 <=? n) && (n <=? 57) || (65 <=? n) && (n <=? 90)
   || (97 <=? n) && (n <=? 122) || (n =? 95))%N.

Fixpoint take_while (p : ascii -> bool) (s : string) : string :=
  match s with
  | String c r => if p c then String c (take_while p r) else EmptyString
  | EmptyString => EmptyString
  end.

Fixpoint drop_while (p : ascii -> bool) (s : string) : string :=
  match s with
  | String c r => if p c then drop_while p r else s
  | EmptyString => EmptyString
  end.

Fixpoint all_chars (p : ascii -> bool) (s : string) : bool :=
  match s with
  | String c r => p c && all_chars p r
  | EmptyString => true
  end.

Fixpoint starts_with (pre s : string) : bool :=
  match pre, s with
  | EmptyString, _ => true
  | String a pre', String b s' => if decide (a = b) then starts_with pre' s' else false
  | String _ _, EmptyString => false
  end.

(** Drops the longest suffix whose characters all satisfy [p]. *)
Fixpoint rdrop_while (p : ascii -> bool) (s : string) : string :=
  match s with
  | String c r =>
      match rdrop_while p r with
      | EmptyString => if p c then EmptyString else String c EmptyString
      | r' => String c r'
      end
  | EmptyString => EmptyString
  end.

(** [s.strip()] *)
Definition strip (s : string) : string :=
  rdrop_while is_space (drop_while is_space s).

(** [s.rstrip("/")] *)
Definition rstrip_slash (s : string) : string :=
  rdrop_while (fun c => bool_decide (c = "/"%char)) s.

(** [re.match(r"(\w+)\s*=\s*trace\(", line)], returning [group(1)].  The three
    repetitions are greedy; each is followed by a character outside its own
    class, so giving back characters can never turn a failure into a match. *)
Definition match_assign_trace (line : string) : option string :=
  match take_while is_word line with
  | EmptyString => None
  | w =>
      match drop_while is_space (drop_while is_word line) with
      | String "="%char r =>
          if starts_with "trace(" (drop_while is_space r) then Some w else None
      | _ => None
      end
  end.



End Text.

(** ** [functools.lru_cache]

    The cache that decorates a one-argument function: entries in order of last
    use (least recently used first), plus the hit and miss counters that
    [cache_info()] reports. *)

Module Lru.
Section Cache.
Context {K V : Type} `{EqDecision K}.

Record cache : Type := Cache {
  entries : list (K * V);
  hits : nat;
  misses : nat
}.

Definition empty : cache := Cache [] 0 0.

Fixpoint find (k : K) (l : list (K * V)) : option V :=
  match l with
  | [] => None
  | (k', v) :: l' => if decide (k = k') then Some v else find k l'
  end.

Fixpoint remove (k : K) (l : list (K * V)) : list (K * V) :=
  match l with
  | [] => []
  | (k', v) :: l' => if decide (k = k') then remove k l' else (k', v) :: remove k l'
  end.

(** Room for one more entry: when the cache is full the oldest entry goes. *)
Definition make_room (maxsize : nat) (l : list (K * V)) : list (K * V) :=
  if (length l <? maxsize)%nat then l else tail l.

(** One call of the decorated function.  A hit returns the stored result and
    refreshes the entry; a miss runs the function, stores the result as the
    most recent entry and evicts the least recently used one if needed. *)
Definition call (maxsize : nat) (compute : K → V) (k : K) (c : cache) : V * cache :=
  match find k (entries c) with
  | Some v => (v, Cache (remove k (entries c) ++ [(k, v)]) (S (hits c)) (misses c))
  | None =>
      let v := compute k in
      (v, Cache (make_room maxsize (entries c) ++ [(k, v)]) (hits c) (S (misses c)))
  end.

Definition currsize (c : cache) : nat := length (entries c).
(** Number of calls the cache has served. *)
Definition lookups (c : cache) : nat := (hits c + misses c)%nat.
End Cache.
Global Arguments cache : clear implicits.

(** The entry for [k] holds [v], and the keys used after it, each once, are
    the set [S]. *)
Definition held `{Countable K} {V} (k : K) (v : V) (S : gset K) (l : list (K * V)) : Prop :=
  ∃ pre post, l = pre ++ (k, v) :: post ∧ find k pre = None
              ∧ NoDup post.*1 ∧ S = list_to_set post.*1.
End Lru.

(** ** The OpenTelemetry objects this layer drives *)

Module Otel.

Inductive StatusCode : Type := UNSET | OK | ERROR.

Global Instance StatusCode_eq_dec : EqDecision StatusCode.
Proof. solve_decision. Defined.

Record Status : Type := mkStatus {
  status_code : StatusCode;
  description : option string
}.

Record Event : Type := mkEvent {
  event_name : string;
  event_attributes : gmap string pyval
}.

(** Identity of a span: trace id and span id. *)
Record SpanContext : Type := mkSpanContext {
  trace_id : N;
  span_id : N
}.

Global Instance SpanContext_eq_dec : EqDecision SpanContext.
Proof. solve_decision. Defined.

Record Span : Type := mkSpan {
  name : string;
  span_context : SpanContext;
  parent : option SpanContext;
  status : Status;
  attributes : gmap string pyval;
  events : list Event
}.

(** An immutable [Context]: the two entries this layer reads and writes, the
    current span and the baggage. *)
Record Context : Type := mkContext {
  ctx_span : option SpanContext;
  ctx_baggage : gmap string pyval
}.

(** [Context()] *)
Definition empty_context : Context := mkContext None ∅.

(** [propagation.get_all(context)] *)
Definition get_all (ctx : Context) : gmap string pyval := ctx_baggage ctx.

(** [propagation.set_baggage(name, value, context)] *)
Definition set_baggage (key : string) (value : pyval) (ctx : Context) : Context :=
  mkContext (ctx_span ctx) (<[key := value]> (ctx_baggage ctx)).

(** [trace.set_span_in_context(span, context)] *)
Definition set_span_in_context (sc : SpanContext) (ctx : Context) : Context :=
  mkContext (Some sc) (ctx_baggage ctx).

End Otel.
Export Otel.

(** ** Callables and call stacks *)

(** What the body of a callable does with the span handle it can reach. *)
Inductive SpanOp : Type :=
  | SetAttribute (key : string) (value : pyval)
  | AddEvent (ev : string).

(** A callable object: its identity (what hashing and equality of a function
    object go by, and so the key under which [lru_cache] stores it), its
    [__name__] attribute when it has one, and its behaviour on the caller's
    arguments: what it does to its span and how it ends. *)
Record Callable : Type := mkCallable {
  fn_id : N;
  fn_name : option string;
  fn_body : list pyval → list SpanOp * outcome pyval
}.

(** A stack frame: the frame that called it and what
    [inspect.getframeinfo(frame).code_context] gives for it, which is [None]
    when the source is not available and may fail. *)
#[warnings="-register-all"]
Inductive frame : Type :=
  | Frame (back : option frame) (info : outcome (option (list string))).

Definition f_back (fr : frame) : option frame :=
  match fr with Frame b _ => b end.

Definition code_context (fr : frame) : outcome (option (list string)) :=
  match fr with Frame _ i => i end.

(** ** Runtime state and the monad of instrumented code *)

Module Run.

(** What a logical task can observe and change: the current [Context] (the
    context variable behind [context.get_current()]), the current operation
    name, the supply of identifiers, the spans that are open, the spans handed
    to the exporter when they ended, and the name cache. *)
Record Runtime : Type := mkRuntime {
  rt_current : Context;
  rt_operation : option string;
  rt_ids : N;
  rt_live : gmap N Span;
  rt_finished : list Span;
  rt_names : Lru.cache N string
}.

Definition initial : Runtime :=
  mkRuntime empty_context None 1 ∅ [] Lru.empty.

Definition set_current (ctx : Context) (rt : Runtime) : Runtime :=
  mkRuntime ctx (rt_operation rt) (rt_ids rt) (rt_live rt) (rt_finished rt) (rt_names rt).
Definition set_operation (op : option string) (rt : Runtime) : Runtime :=
  mkRuntime (rt_current rt) op (rt_ids rt) (rt_live rt) (rt_finished rt) (rt_names rt).
Definition set_ids (n : N) (rt : Runtime) : Runtime :=
  mkRuntime (rt_current rt) (rt_operation rt) n (rt_live rt) (rt_finished rt) (rt_names rt).
Definition set_live (l : gmap N Span) (rt : Runtime) : Runtime :=
  mkRuntime (rt_current rt) (rt_operation rt) (rt_ids rt) l (rt_finished rt) (rt_names rt).
Definition set_finished (f : list Span) (rt : Runtime) : Runtime :=
  mkRuntime (rt_current rt) (rt_operation rt) (rt_ids rt) (rt_live rt) f (rt_names rt).
Definition set_names (c : Lru.cache N string) (rt : Runtime) : Runtime :=
  mkRuntime (rt_current rt) (rt_operation rt) (rt_ids rt) (rt_live rt) (rt_finished rt) c.

(** A computation reads and updates the runtime and ends with a value or a
    raised exception. *)
Definition M (A : Type) : Type := Runtime → outcome A * Runtime.

Global Instance M_ret : MRet M := λ A a rt, (Return a, rt).

Global Instance M_bind : MBind M := λ A B f m rt,
  match m rt with
  | (Return a, rt') => f a rt'
  | (Raise e, rt') => (Raise e, rt')
  end.

Definition raise {A} (e : exn) : M A := λ rt, (Raise e, rt).

(** [try: m finally: cleanup] *)
Definition try_finally {A} (m : M A) (cleanup : M unit) : M A := λ rt,
  match m rt with
  | (o, rt1) =>
      match cleanup rt1 with
      | (Return _, rt2) => (o, rt2)
      | (Raise e, rt2) => (Raise e, rt2)
      end
  end.

(** [try: m except BaseException as exc: handler(exc); raise] *)
Definition on_error {A} (m : M A) (handler : exn → M unit) : M A := λ rt,
  match m rt with
  | (Return a, rt1) => (Return a, rt1)
  | (Raise e, rt1) =>
      match handler e rt1 with
      | (Return _, rt2) => (Raise e, rt2)
      | (Raise e', rt2) => (Raise e', rt2)
      end
  end.

(** Runs [m] and hands its outcome to the code that follows, as a caller that
    wraps the call in [try]/[except] does. *)
Definition attempt {A} (m : M A) : M (outcome A) := λ rt,
  match m rt with (o, rt1) => (Return o, rt1) end.

Fixpoint for_each {A} (f : A → M unit) (l : list A) : M unit :=
  match l with
  | [] => mret tt
  | x :: l' => f x;; for_each f l'
  end.

Definition modify (f : Runtime → Runtime) : M unit := λ rt, (Return tt, f rt).

(** *** [opentelemetry.context] *)

(** [context.get_current()] *)
Definition get_current : M Context := λ rt, (Return (rt_current rt), rt).

(** [context.attach(ctx)]: the token remembers the context it replaces. *)
Definition attach (ctx : Context) : M Context := λ rt,
  (Return (rt_current rt), set_current ctx rt).

(** [context.detach(token)] *)
Definition detach (token : Context) : M unit := λ rt,
  (Return tt, set_current token rt).

(** *** The tracer and span handles (§6 of the specification) *)

(** The SDK draws identifiers at random; the model hands out the next unused
    number, so two draws never collide. *)
Definition generate_id : M N := λ rt,
  (Return (rt_ids rt), set_ids (N.succ (rt_ids rt)) rt).

(** [tracer.start_span(name)]: a child of the current span when there is one,
    the root of a new trace otherwise. *)
Definition start_span (span_name : string) : M SpanContext :=
  ctx ← get_current;
  tid ← match ctx_span ctx with
        | Some p => mret (trace_id p)
        | None => generate_id
        end;
  sid ← generate_id;
  let sc := mkSpanContext tid sid in
  let sp := mkSpan span_name sc (ctx_span ctx) (mkStatus UNSET None) ∅ [] in
  modify (λ rt, set_live (<[sid := sp]> (rt_live rt)) rt);;
  mret sc.

(** Writes through a handle reach the span while it is open and are dropped
    once it has ended. *)
Definition update_span (h : SpanContext) (f : Span → Span) : M unit :=
  modify (λ rt, set_live (alter f (span_id h) (rt_live rt)) rt).

Definition set_attribute (h : SpanContext) (key : string) (value : pyval) : M unit :=
  update_span h (λ s, mkSpan (name s) (span_context s) (parent s) (status s)
                         (<[key := value]> (attributes s)) (events s)).

Definition add_event (h : SpanContext) (ev : string) (attrs : gmap string pyval) : M unit :=
  update_span h (λ s, mkSpan (name s) (span_context s) (parent s) (status s)
                         (attributes s) (events s ++ [mkEvent ev attrs])).

(** [span.set_status]: a status of OK is final and UNSET is never written. *)
Definition set_status (h : SpanContext) (code : StatusCode) (desc : option string) : M unit :=
  update_span h (λ s,
    if bool_decide (status_code (status s) = OK) || bool_decide (code = UNSET) then s
    else mkSpan (name s) (span_context s) (parent s) (mkStatus code desc)
           (attributes s) (events s)).

(** The event that [span.record_exception(exc)] adds: named [exception],
    carrying the class and the message. *)
Definition exception_event (exc : exn) : Event :=
  mkEvent "exception"
    (<["exception.type" := PyStr (exn_type exc)]>
       (<["exception.message" := PyStr (exn_msg exc)]> ∅)).

(** [span.record_exception(exc)] *)
Definition record_exception (h : SpanContext) (exc : exn) : M unit :=
  update_span h (λ s, mkSpan (name s) (span_context s) (parent s) (status s)
                         (attributes s) (events s ++ [exception_event exc])).

(** [span.end()]: the span leaves the open spans and reaches the exporter. *)
Definition end_span (h : SpanContext) : M unit := λ rt,
  match rt_live rt !! span_id h with
  | Some s =>
      (Return tt,
       set_finished (rt_finished rt ++ [s]) (set_live (delete (span_id h) (rt_live rt)) rt))
  | None => (Return tt, rt)
  end.

(** Makes the span the current one while [body] runs. *)
Definition use_span {A} (h : SpanContext) (body : M A) : M A :=
  ctx ← get_current;
  token ← attach (set_span_in_context h ctx);
  try_finally body (detach token).

(** [with tracer.start_as_current_span(name) as otel_span: body], with the
    SDK's defaults: an exception leaving the body is recorded on the span and
    sets its status before the span ends. *)
Definition start_as_current_span {A} (span_name : string) (body : SpanContext → M A) : M A :=
  otel_span ← start_span span_name;
  try_finally
    (on_error (use_span otel_span (body otel_span))
       (λ exc,
          record_exception otel_span exc;;
          set_status otel_span ERROR (Some (exn_type exc +:+ ": " +:+ exn_msg exc))))
    (end_span otel_span).

Definition get_operation : M (option string) := λ rt, (Return (rt_operation rt), rt).

(** Modelled from the spec: [run_in_operation_context] of
    operation_context.py, which is not among the sources.  It sets the current
    operation name for the duration of the scope and restores the prior value
    on exit (§4.1 item 3, §4.3). *)
Definition run_in_operation_context {A} (op : string) (body : M A) : M A :=
  prior ← get_operation;
  modify (set_operation (Some op));;
  try_finally body (modify (set_operation prior)).


(** Every identifier in use was drawn from the supply. *)
Definition ids_fresh (rt : Runtime) : Prop :=
  from_option (λ p, (trace_id p < rt_ids rt)%N) True (ctx_span (rt_current rt))
  ∧ map_Forall (λ _ s, (trace_id (span_context s) < rt_ids rt)%N) (rt_live rt)
  ∧ Forall (λ s, (trace_id (span_context s) < rt_ids rt)%N) (rt_finished rt).

Global Instance ids_fresh_dec rt : Decision (ids_fresh rt).
Proof. unfold ids_fresh. destruct (ctx_span (rt_current rt)); cbn; apply _. Defined.

End Run.
Export Run.

(** ** functional.py *)

Module Functional.
Import Text.

(** [maxsize] of the cache that decorates [_infer_name] *)
Definition maxsize : nat := 1024.

(** Strategy 2 of [_infer_name]: the source line of the frame two frames up,
    matched against the assignment pattern.  [stack] is what
    [inspect.currentframe()] returns inside [_infer_name]. *)
Definition call_site_name (stack : option frame) : outcome (option string) :=
  match stack with
  | Some fr =>
      match f_back fr with
      | Some fr1 =>
          match f_back fr1 with
          | Some caller_frame =>
              match code_context caller_frame with
              | Return (Some (line :: _)) =>
                  let source_line := strip line in
                  Return (match_assign_trace source_line)
              | Return _ => Return None
              | Raise e => Raise e
              end
          | None => Return None
          end
      | None => Return None
      end
  | None => Return None
  end.

(** Strategy 1: the [__name__] attribute, unless it is the lambda marker. *)
Definition declared_name (func : Callable) : option string :=
  match fn_name func with
  | Some n => if bool_decide (n ≠ "<lambda>") then Some n else None
  | None => None
  end.

(** The body of [_infer_name], as it runs on a cache miss: an exception inside
    strategy 2 is swallowed and the fallback is returned. *)
Definition infer_name_uncached (func : Callable) (stack : option frame) : string :=
  match declared_name func with
  | Some n => n
  | None =>
      match call_site_name stack with
      | Return (Some v) => v
      | Return None => "unnamed"
      | Raise _ => "unnamed"
      end
  end.

(** [_infer_name(func)] as decorated with [lru_cache(maxsize=1024)]: the cache
    is keyed by the callable. *)
Definition _infer_name (func : Callable) (stack : option frame)
    (c : Lru.cache N string) : string * Lru.cache N string :=
  Lru.call maxsize (λ _, infer_name_uncached func stack) (fn_id func) c.


(** The callables that a run of calls looks up *)
Definition looked_up (calls : list (Callable * option frame)) : gset N :=
  list_to_set ((λ call, fn_id call.1) <$> calls).

(** A run of calls of [_infer_name], each with its callable and its stack. *)
Definition infer_names (calls : list (Callable * option frame))
    (c : Lru.cache N string) : Lru.cache N string :=
  fold_left (λ c' call, snd (_infer_name call.1 call.2 c')) calls c.

(** [_infer_name] called from code that runs in [M] *)
Definition infer_name (func : Callable) (stack : option frame) : M string := λ rt,
  match _infer_name func stack (rt_names rt) with
  | (n, c) => (Return n, set_names c rt)
  end.

(** Modelled from the spec: [TraceContext] of context.py, which is not among
    the sources: the handle over one span through which the body sets
    attributes, adds events and reads identifiers (§6). *)
Record TraceContext : Type := mkTraceContext { otel_span : SpanContext }.

Definition ctx_trace_id (ctx : TraceContext) : N := trace_id (otel_span ctx).

(** [with span(name) as ctx: body] *)
Definition span {A} (span_name : string) (body : TraceContext → M A) : M A :=
  run_in_operation_context span_name
    (start_as_current_span span_name (λ sp, body (mkTraceContext sp))).

(** [with with_new_context(): body] *)
Definition with_new_context {A} (body : M A) : M A :=
  let new_ctx := empty_context in
  token ← attach new_ctx;
  try_finally body (detach token).

(** [with with_baggage(baggage): body].  The values of [baggage] are declared
    as texts but may be any object, hence the [str(value)]; the copy of the
    existing baggage and its default for an empty one are the same map. *)
Definition with_baggage {A} (baggage : gmap string pyval) (body : M A) : M A :=
  current_context ← get_current;
  let existing_baggage := get_all current_context in
  let existing_baggage_dict := existing_baggage in
  let updated_baggage := baggage ∪ existing_baggage_dict in
  let new_context :=
    map_fold (λ key value ctx, set_baggage key (PyStr (py_str value)) ctx)
      current_context updated_baggage in
  token ← attach new_context;
  try_finally body (detach token).

(** The baggage that code sees at this point *)
Definition current_baggage : M (gmap string pyval) :=
  ctx ← get_current; mret (get_all ctx).

(** A stored baggage value: the text of the value given. *)
Definition stored (value : pyval) : pyval := PyStr (py_str value).

(** The context under which the body of [with_baggage] is expected to run:
    the span linkage of [ctx], and the given entries laid over its baggage,
    every value as text. *)
Definition baggage_scope (baggage : gmap string pyval) (ctx : Context) : Context :=
  mkContext (ctx_span ctx) (stored <$> (baggage ∪ ctx_baggage ctx)).

(** The trace id that a span opened at this point gets. *)
Definition trace_id_of_new_span (span_name : string) : M N :=
  span span_name (λ ctx, mret (ctx_trace_id ctx)).

End Functional.
Export Functional.

(** ** The instrumentation wrapper *)

Module Decorators.

(** An instrumented callable: the wrapped function and its trace name. *)
Record Wrapped : Type := mkWrapped {
  w_func : Callable;
  w_name : string
}.

(** Modelled from the spec: [trace] of decorators.py, which is not among the
    sources.  The trace name is the explicit [name] when one is given and
    the inferred name otherwise (§4.1 item 1). *)
Definition trace (func : Callable) (name : option string) (stack : option frame) : M Wrapped :=
  match name with
  | Some n => mret (mkWrapped func n)
  | None => n ← infer_name func stack; mret (mkWrapped func n)
  end.

(** One operation of the function's body, through the handle *)
Definition apply_op (h : SpanContext) (op : SpanOp) : M unit :=
  match op with
  | SetAttribute k v => set_attribute h k v
  | AddEvent ev => add_event h ev ∅
  end.

(** What one operation, and a run of them, leaves on an open span. *)
Definition op_on_span (op : SpanOp) (s : Span) : Span :=
  match op with
  | SetAttribute k v =>
      mkSpan (name s) (span_context s) (parent s) (status s)
        (<[k := v]> (attributes s)) (events s)
  | AddEvent ev =>
      mkSpan (name s) (span_context s) (parent s) (status s)
        (attributes s) (events s ++ [mkEvent ev ∅])
  end.

Definition span_after_ops (ops : list SpanOp) (s : Span) : Span :=
  fold_left (λ s' op, op_on_span op s') ops s.

(** The span that a call opens in [rt]: a child of the current span, or the
    root of a new trace. *)
Definition opened (span_name : string) (rt : Runtime) : Span :=
  match ctx_span (rt_current rt) with
  | Some p =>
      mkSpan span_name (mkSpanContext (trace_id p) (rt_ids rt)) (Some p)
        (mkStatus UNSET None) ∅ []
  | None =>
      mkSpan span_name (mkSpanContext (rt_ids rt) (N.succ (rt_ids rt))) None
        (mkStatus UNSET None) ∅ []
  end.

(** The span as the wrapper closes it: untouched after a normal return,
    marked as failed after an exception. *)
Definition closed_span (out : outcome pyval) (s : Span) : Span :=
  match out with
  | Return _ => s
  | Raise e =>
      mkSpan (name s) (span_context s) (parent s) (mkStatus ERROR (Some (exn_msg e)))
        (attributes s) (events s ++ [exception_event e])
  end.

(** The function's own run: what it does to the handle, then how it ends. *)
Definition run_body (func : Callable) (h : SpanContext) (args : list pyval) : M pyval :=
  match fn_body func args with
  | (ops, Return v) => for_each (apply_op h) ops;; mret v
  | (ops, Raise e) => for_each (apply_op h) ops;; raise e
  end.

(** Modelled from the spec: invoking a wrapped callable (§4.1 items 1 and 3
    to 5), driving the span through the handle interface of §6.  A span named
    after the wrapper is opened and made current, the operation name is set,
    the function runs; a failure sets the status to ERROR with the failure's
    message, is recorded as an event and is raised again; the span is
    finalised and the prior scope restored on every exit. *)
Definition invoke (w : Wrapped) (args : list pyval) : M pyval :=
  run_in_operation_context (w_name w)
    (h ← start_span (w_name w);
     try_finally
       (use_span h
          (on_error (run_body (w_func w) h args)
             (λ exc,
                set_status h ERROR (Some (exn_msg exc));;
                record_exception h exc)))
       (end_span h)).

End Decorators.
Export Decorators.

Module Batch.

Fixpoint dict_get {V} (key : string) (d : list (string * V)) : option V :=
  match d with
  | [] => None
  | (k, v) :: d' => if decide (key = k) then Some v else dict_get key d'
  end.

(** One item of the result of [instrument]: the function wrapped under its key. *)
Definition wrap_item (item : string * Callable) : string * Wrapped :=
  (item.1, mkWrapped item.2 item.1).

(** [instrument(operations)]: the dict comprehension visits the items in
    insertion order and wraps each function under its key. *)
Fixpoint instrument (operations : list (string * Callable)) (stack : option frame)
    : M (list (string * Wrapped)) :=
  match operations with
  | [] => mret []
  | (key, func) :: rest =>
      w ← trace func (Some key) stack;
      d ← instrument rest stack;
      mret ((key, w) :: d)
  end.

End Batch.
Export Batch.

(** ** subscribers/posthog.py *)

Module PostHog.
Import Text.

(** [httpx.AsyncClient(timeout=5.0)]: the timeout in seconds. *)
Record AsyncClient : Type := mkAsyncClient { timeout : Z }.

Record PostHogSubscriber : Type := mkPostHogSubscriber {
  api_key : option string;
  host : string;
  client : option AsyncClient
}.

(** The JSON body of a capture request. *)
Record Payload : Type := mkPayload {
  payload_api_key : option string;
  payload_event : string;
  payload_properties : gmap string pyval
}.

(** What the subscriber does to the outside world: the requests it posts, the
    clients it closes and the lines it logs at error level. *)
Record Net : Type := mkNet {
  posted : list (string * Payload);
  closed : list AsyncClient;
  logged : list string
}.

Definition quiet : Net := mkNet [] [] [].

(** [PostHogSubscriber(api_key, host, project_api_key)]; [httpx] tells whether
    the import of the HTTP library succeeded. *)
Definition __init__ (httpx : bool) (api_key : option string) (host : string)
    (project_api_key : option string) : outcome PostHogSubscriber :=
  if negb httpx then
    Raise (Exn "ImportError"
             "httpx is required for PostHogSubscriber. Install with: pip install httpx")
  else
    let self_api_key := py_or api_key project_api_key in
    if negb (truthy self_api_key) then Raise (Exn "ValueError" "api_key is required")
    else
      Return (mkPostHogSubscriber self_api_key (rstrip_slash host)
                (Some (mkAsyncClient 5))).

Section Methods.
(** The far end: what [client.post(url, json=payload)] followed by
    [response.raise_for_status()] does ([None]: both succeed), and what
    [client.aclose()] does. *)
Variable deliver : string → Payload → option exn.
Variable aclose : AsyncClient → option exn.

(** [await self.send(event, properties)] *)
Definition send (self : PostHogSubscriber) (event : string)
    (properties : option (gmap string pyval)) (net : Net)
    : outcome unit * PostHogSubscriber * Net :=
  match client self with
  | None => (Return tt, self, net)
  | Some _ =>
      let url := host self +:+ "/capture/" in
      let payload := mkPayload (api_key self) event (default ∅ properties) in
      let net1 := mkNet (posted net ++ [(url, payload)]) (closed net) (logged net) in
      match deliver url payload with
      | None => (Return tt, self, net1)
      | Some e =>
          (Raise e, self,
           mkNet (posted net1) (closed net1)
             (logged net1 ++ ["PostHog send failed: " +:+ exn_msg e]))
      end
  end.

(** [await self.shutdown()] *)
Definition shutdown (self : PostHogSubscriber) (net : Net)
    : outcome unit * PostHogSubscriber * Net :=
  match client self with
  | Some c =>
      let net1 := mkNet (posted net) (closed net ++ [c]) (logged net) in
      match aclose c with
      | None => (Return tt, mkPostHogSubscriber (api_key self) (host self) None, net1)
      | Some e => (Raise e, self, net1)
      end
  | None => (Return tt, self, net)
  end.
End Methods.

End PostHog.

(** ** Sample callables, call sites and cache runs *)

Module Samples.

(** [lambda a, b: a + b] *)
Definition add : Callable :=
  mkCallable 1 (Some "<lambda>")
    (λ args,
       match args with
       | [PyInt a; PyInt b] => ([], Return (PyInt (a + b)))
       | [PyStr a; PyStr b] => ([], Return (PyStr (a +:+ b)))
       | _ => ([], Raise (Exn "TypeError" "unsupported operand"))
       end).

(** [lambda a, b: a * b] *)
Definition multiply : Callable :=
  mkCallable 2 (Some "<lambda>")
    (λ args,
       match args with
       | [PyInt a; PyInt b] => ([], Return (PyInt (a * b)))
       | _ => ([], Raise (Exn "TypeError" "unsupported operand"))
       end).

(** A function that sets an attribute on its span and returns its argument,
    after [create_user] of the tests. *)
Definition create_user : Callable :=
  mkCallable 3 (Some "create_user")
    (λ args,
       match args with
       | [data] => ([SetAttribute "user.id" data], Return data)
       | _ => ([], Raise (Exn "TypeError" "missing argument"))
       end).


(** An anonymous function with identity [i] *)
Definition anonymous (i : N) : Callable :=
  mkCallable i (Some "<lambda>") (λ _, ([], Return PyNone)).

(** A function [def f(): ...] with identity [i] *)
Definition named (i : N) : Callable :=
  mkCallable i (Some "f") (λ _, ([], Return PyNone)).

(** The stack seen inside [_infer_name] when the wrapper was applied by code
    whose current source line is [line]. *)
Definition site (line : string) : option frame :=
  Some (Frame (Some (Frame (Some (Frame None (Return (Some [line])))) (Return None)))
          (Return None)).


(** [n] further functions, each resolved once. *)
Definition others (n : nat) : list (Callable * option frame) :=
  (λ i, (named (N.of_nat i), site "wrapped = trace(f)")) <$> seq 1 n.

(** The runtime inside [with span("parent")], started from the initial one. *)
Definition inside_parent : Runtime :=
  mkRuntime (mkContext (Some (mkSpanContext 1 2)) ∅) (Some "parent") 3
    (<[2%N := mkSpan "parent" (mkSpanContext 1 2) None (mkStatus UNSET None) ∅ []]> ∅)
    [] Lru.empty.

(** A far end that accepts every request, one that answers every request
    with an error status, and a client that closes cleanly. *)
Definition accepting : string → PostHog.Payload → option exn := λ _ _, None.
Definition refusing : string → PostHog.Payload → option exn :=
  λ _ _, Some (Exn "HTTPStatusError" "Server error 503 for url").
Definition closing : PostHog.AsyncClient → option exn := λ _, None.

(** [PostHogSubscriber(api_key="phc_test", host="https://app.posthog.com/")] *)
Definition subscriber : PostHog.PostHogSubscriber :=
  PostHog.mkPostHogSubscriber (Some "phc_test") "https://app.posthog.com"
    (Some (PostHog.mkAsyncClient 5)).

(** The same subscriber after [shutdown] *)
Definition subscriber_down : PostHog.PostHogSubscriber :=
  PostHog.mkPostHogSubscriber (Some "phc_test") "https://app.posthog.com" None.

End Samples.

(** ** Sequences of subscriber calls *)

Module PostHogRuns.
Import PostHog.

(** The last character of [s] is a slash. *)
Fixpoint ends_with_slash (s : string) : bool :=
  match s with
  | EmptyString => false
  | String c EmptyString => bool_decide (c = "/"%char)
  | String _ r => ends_with_slash r
  end.

(** [n] slashes *)
Fixpoint slashes (n : nat) : string :=
  match n with
  | O => EmptyString
  | S n' => String "/"%char (slashes n')
  end.

(** A call made on a subscriber by the code that owns it. *)
Inductive call : Type :=
  | Send (event : string) (properties : option (gmap string pyval))
  | Shutdown.

(** The request that [send] builds for an event. *)
Definition request (self : PostHogSubscriber) (msg : string * option (gmap string pyval))
    : string * Payload :=
  (host self +:+ "/capture/", mkPayload (api_key self) msg.1 (default ∅ msg.2)).

(** The events sent before the first [Shutdown], all the events sent, and the
    number of shutdowns, of a sequence of calls. *)
Fixpoint sends_until_shutdown (calls : list call)
    : list (string * option (gmap string pyval)) :=
  match calls with
  | [] => []
  | Send ev props :: rest => (ev, props) :: sends_until_shutdown rest
  | Shutdown :: _ => []
  end.

Fixpoint all_sends (calls : list call) : list (string * option (gmap string pyval)) :=
  match calls with
  | [] => []
  | Send ev props :: rest => (ev, props) :: all_sends rest
  | Shutdown :: rest => all_sends rest
  end.

Fixpoint shutdowns (calls : list call) : nat :=
  match calls with
  | [] => O
  | Send _ _ :: rest => shutdowns rest
  | Shutdown :: rest => S (shutdowns rest)
  end.

Definition has_shutdown (calls : list call) : bool :=
  match shutdowns calls with O => false | S _ => true end.

Section Runs.
Variable deliver : string → Payload → option exn.
Variable aclose : AsyncClient → option exn.

(** The calls made one after the other, each awaited, by a caller that
    catches what a call raises and goes on. *)
Fixpoint run_calls (calls : list call) (self : PostHogSubscriber) (net : Net)
    : PostHogSubscriber * Net :=
  match calls with
  | [] => (self, net)
  | Send ev props :: rest =>
      match send deliver self ev props net with
      | (_, self', net') => run_calls rest self' net'
      end
  | Shutdown :: rest =>
      match shutdown aclose self net with
      | (_, self', net') => run_calls rest self' net'
      end
  end.

(** The lines logged for the requests that the far end refuses. *)
Fixpoint failure_lines (requests : list (string * Payload)) : list string :=
  match requests with
  | [] => []
  | (url, payload) :: rest =>
      match deliver url payload with
      | Some e => ("PostHog send failed: " +:+ exn_msg e) :: failure_lines rest
      | None => failure_lines rest
      end
  end.
End Runs.

End PostHogRuns.

(** ** The scope of a manual span, entry and exit *)

Module SpanScope.

(** The runtime in which the body of [with span(name)] starts: the operation
    name is set, the span is open and current, its identifiers are used up. *)
Definition entered (span_name : string) (rt : Runtime) : Runtime :=
  let sp := opened span_name rt in
  mkRuntime (set_span_in_context (span_context sp) (rt_current rt)) (Some span_name)
    (N.succ (span_id (span_context sp)))
    (<[span_id (span_context sp) := sp]> (rt_live rt))
    (rt_finished rt) (rt_names rt).

(** What the exception hook of the span scope leaves on an open span: the
    exception as an event and, unless the status is OK, the ERROR status
    described by class and message. *)
Definition hooked (exc : exn) (s : Span) : Span :=
  let s1 := mkSpan (name s) (span_context s) (parent s) (status s) (attributes s)
              (events s ++ [exception_event exc]) in
  if bool_decide (status_code (status s1) = OK) || bool_decide (ERROR = UNSET) then s1
  else mkSpan (name s1) (span_context s1) (parent s1)
         (mkStatus ERROR (Some (exn_type exc +:+ ": " +:+ exn_msg exc)))
         (attributes s1) (events s1).

(** The runtime after the scope, from the outcome and the runtime that the
    body left: the prior context is current, the hook has run if the body
    raised, the span has ended if it was still open, and the prior operation
    name is back. *)
Definition exited (span_name : string) (rt : Runtime) {A} (out : outcome A)
    (after_body : Runtime) : Runtime :=
  let h := span_context (opened span_name rt) in
  let rt1 := set_current (rt_current rt) after_body in
  let rt2 := match out with
             | Raise exc => set_live (alter (hooked exc) (span_id h) (rt_live rt1)) rt1
             | Return _ => rt1
             end in
  set_operation (rt_operation rt) (end_span h rt2).2.

(** The value of the last [SetAttribute] on [key] among [ops] *)
Fixpoint last_write (key : string) (ops : list SpanOp) : option pyval :=
  match ops with
  | [] => None
  | SetAttribute k v :: rest =>
      match last_write key rest with
      | Some v' => Some v'
      | None => if decide (key = k) then Some v else None
      end
  | AddEvent _ :: rest => last_write key rest
  end.

(** The events that [ops] add, in order *)
Fixpoint added_events (ops : list SpanOp) : list Event :=
  match ops with
  | [] => []
  | SetAttribute _ _ :: rest => added_events rest
  | AddEvent ev :: rest => mkEvent ev ∅ :: added_events rest
  end.

(** A body that works on its span through the handle and then returns or
    raises. *)
Definition handle_body (ops : list SpanOp) (out : outcome pyval) (ctx : TraceContext)
    : M pyval :=
  for_each (apply_op (otel_span ctx)) ops;;
  match out with
  | Return v => mret v
  | Raise e => raise e
  end.

(** The span as its scope hands it to the exporter. *)
Definition exported {A} (out : outcome A) (s : Span) : Span :=
  match out with
  | Raise exc => hooked exc s
  | Return _ => s
  end.

(** What a body sees of the scope it runs in: the current span, the baggage
    and the span of its handle. *)
Definition look_around (ctx : TraceContext)
    : M (option SpanContext * gmap string pyval * SpanContext) :=
  current ← get_current;
  mret (ctx_span current, get_all current, otel_span ctx).

End SpanScope.

(** ** More samples *)

Module MoreSamples.
Import PostHog PostHogRuns Samples.

(** A far end that refuses the event [b] only, and a client that cannot be
    closed. *)
Definition picky : string → Payload → option exn :=
  λ _ payload,
    if decide (payload_event payload = "b")
    then Some (Exn "HTTPStatusError" "Client error 400") else None.
Definition stuck : AsyncClient → option exn :=
  λ _, Some (Exn "RuntimeError" "transport is busy").

(** Two sends, a shutdown, a late send and a second shutdown. *)
Definition day : list call :=
  [Send "a" None; Send "b" (Some {[ "n" := PyInt 1 ]}); Shutdown; Send "c" None; Shutdown].

(** A runtime whose baggage names a tenant, in text. *)
Definition with_tenant : Runtime :=
  set_current (mkContext None {[ "tenant.id" := PyStr "acme" ]}) initial.

(** The stack of a wrapper applied two frames below a caller whose current
    line is [line], with nothing known about the frames in between. *)
Definition called_from (line : string) : option frame :=
  Some (Frame (Some (Frame (Some (Frame None (Return (Some [line])))) (Return None)))
          (Return None)).

End MoreSamples.

(** * Properties *)

(** ** The assignment pattern *)

Module TextFacts.
Import Text.

Lemma app_cons c s t : String c s +:+ t = String c (s +:+ t).
Proof. reflexivity. Qed.

Lemma app_empty t : EmptyString +:+ t = t.
Proof. reflexivity. Qed.









End TextFacts.

(** ** The cache *)

Module LruFacts.
Section Facts.
Context {K V : Type} `{EqDecision K}.
Implicit Types (l : list (K * V)) (c : Lru.cache K V) (k : K) (v : V).

Lemma find_app_miss k l l' :
  Lru.find k l = None → Lru.find k (l ++ l') = Lru.find k l'.
Proof.
  induction l as [|[k' v'] l IH]; [done|]. cbn.
  destruct (decide (k = k')); [done | exact IH].
Qed.

Lemma find_remove_same k l : Lru.find k (Lru.remove k l) = None.
Proof.
  induction l as [|[k' v'] l IH]; [done|]. cbn.
  destruct (decide (k = k')) as [|Hne]; [done|]. cbn.
  by destruct (decide (k = k')).
Qed.

Lemma find_tail_miss k l : Lru.find k l = None → Lru.find k (tail l) = None.
Proof.
  destruct l as [|[k' v'] l]; [done|]. cbn. by destruct (decide (k = k')).
Qed.

Lemma length_remove_le k l : (length (Lru.remove k l) ≤ length l)%nat.
Proof.
  induction l as [|[k' v'] l IH]; [done|]. cbn.
  destruct (decide (k = k')); cbn; lia.
Qed.

Lemma length_remove_hit k v l :
  Lru.find k l = Some v → (length (Lru.remove k l) < length l)%nat.
Proof.
  induction l as [|[k' v'] l IH]; [done|]. cbn.
  destruct (decide (k = k')); cbn; intros Hf.
  - pose proof (length_remove_le k l). lia.
  - specialize (IH Hf). lia.
Qed.

Lemma remove_app k l l' : Lru.remove k (l ++ l') = Lru.remove k l ++ Lru.remove k l'.
Proof.
  induction l as [|[k' v'] l IH]; [done|]. cbn.
  destruct (decide (k = k')); [done|]. cbn. by rewrite IH.
Qed.

(** A hit returns the stored value, whatever the function would compute. *)
Lemma call_hit m f k v c :
  Lru.find k (Lru.entries c) = Some v → (Lru.call m f k c).1 = v.
Proof. unfold Lru.call. by intros ->. Qed.

Lemma call_miss m f k c :
  Lru.find k (Lru.entries c) = None → (Lru.call m f k c).1 = f k.
Proof. unfold Lru.call. by intros ->. Qed.

(** The cache never grows beyond its capacity. *)
Lemma call_bounded m f k c :
  (0 < m)%nat → (Lru.currsize c ≤ m)%nat → (Lru.currsize (Lru.call m f k c).2 ≤ m)%nat.
Proof.
  unfold Lru.currsize, Lru.call. intros Hm Hc.
  destruct (Lru.find k (Lru.entries c)) as [v|] eqn:E; cbn; rewrite length_app; cbn.
  - pose proof (length_remove_hit _ _ _ E). lia.
  - unfold Lru.make_room. destruct (Nat.ltb_spec (length (Lru.entries c)) m); [lia|].
    destruct (Lru.entries c); cbn in *; lia.
Qed.

Lemma find_remove_miss k k' l : Lru.find k l = None → Lru.find k (Lru.remove k' l) = None.
Proof.
  induction l as [|[k2 v2] l IH]; [done|]. cbn.
  destruct (decide (k = k2)); [done|]. intros Hf.
  destruct (decide (k' = k2)); [by apply IH|]. cbn.
  destruct (decide (k = k2)); [done | by apply IH].
Qed.

End Facts.

Section Distinct.
Context {K V : Type} `{Countable K}.
Implicit Types (l : list (K * V)) (c : Lru.cache K V) (k : K) (v : V) (S : gset K).

Lemma remove_keys k l : (Lru.remove k l).*1 = filter (λ x, x ≠ k) l.*1.
Proof.
  induction l as [|[k' v'] l IH]; [done|]. cbn [Lru.remove].
  rewrite fmap_cons. cbn [fst].
  destruct (decide (k = k')) as [->|Hne].
  - rewrite filter_cons_False by (intros Hc; by apply Hc). exact IH.
  - rewrite filter_cons_True by congruence. rewrite fmap_cons. cbn [fst]. by rewrite IH.
Qed.

Lemma find_none_keys k l : Lru.find k l = None ↔ k ∉ l.*1.
Proof.
  induction l as [|[k' v'] l IH]; cbn.
  - split; [intros _; apply not_elem_of_nil | done].
  - rewrite not_elem_of_cons. destruct (decide (k = k')) as [->|Hne].
    + split; [done | intros [Hk _]; by destruct Hk].
    + rewrite IH. tauto.
Qed.

Lemma held_find k v S l : Lru.held k v S l → Lru.find k l = Some v.
Proof.
  intros (pre & post & -> & Hpre & _). rewrite find_app_miss by done.
  cbn. by destruct (decide (k = k)).
Qed.

(** A call for another key leaves the entry in place as long as the keys
    used since, this one included, are fewer than the capacity: a hit moves
    its own entry behind, a miss evicts from the front, where an entry older
    than [k] sits unless all the others are more recent. *)
Lemma call_keeps_held m f k v k' S c :
  k' ≠ k → (size (S ∪ {[k']}) < m)%nat → Lru.held k v S (Lru.entries c) →
  Lru.held k v (S ∪ {[k']}) (Lru.entries (Lru.call m f k' c).2).
Proof.
  intros Hne Hsize (pre & post & Hl & Hpre & Hnd & HS). unfold Lru.call.
  destruct (Lru.find k' (Lru.entries c)) as [v'|] eqn:E; cbn.
  - exists (Lru.remove k' pre), (Lru.remove k' post ++ [(k', v')]).
    rewrite Hl, remove_app. cbn. destruct (decide (k' = k)); [done|].
    split_and!.
    + by rewrite <- app_assoc.
    + by apply find_remove_miss.
    + rewrite fmap_app, remove_keys. cbn. apply NoDup_app. split_and!.
      * by apply NoDup_filter.
      * intros x Hx. apply list_elem_of_filter in Hx as [Hx _].
        rewrite list_elem_of_singleton. done.
      * apply NoDup_singleton.
    + rewrite fmap_app, remove_keys, list_to_set_app_L, HS. cbn.
      apply set_eq. intros x. rewrite !elem_of_union, !elem_of_list_to_set,
        list_elem_of_filter, elem_of_singleton, elem_of_empty.
      destruct (decide (x = k')); tauto.
  - assert (Hk' : k' ∉ post.*1).
    { apply find_none_keys in E. rewrite Hl, fmap_app in E. cbn in E.
      rewrite elem_of_app, elem_of_cons in E. tauto. }
    assert (Hnd' : NoDup (post ++ [(k', f k')]).*1).
    { rewrite fmap_app. cbn. apply NoDup_app. split_and!; [done| |apply NoDup_singleton].
      intros x Hx. rewrite list_elem_of_singleton. by intros ->. }
    assert (HS' : S ∪ {[k']} = list_to_set (post ++ [(k', f k')]).*1).
    { rewrite fmap_app, list_to_set_app_L, HS. cbn. by rewrite (right_id_L ∅ (∪)). }
    unfold Lru.make_room. rewrite Hl.
    destruct (Nat.ltb_spec (length (pre ++ (k, v) :: post)) m) as [Hlt|Hge].
    + exists pre, (post ++ [(k', f k')]). split_and!; [|done..].
      by rewrite <- app_assoc.
    + destruct pre as [|p pre].
      { exfalso. rewrite HS' in Hsize. rewrite size_list_to_set in Hsize by done.
        rewrite length_fmap, length_app in Hsize. cbn in Hsize, Hge. lia. }
      exists pre, (post ++ [(k', f k')]). split_and!; [| |done..].
      * cbn. by rewrite <- app_assoc.
      * destruct p as [k2 v2]. cbn in Hpre. by destruct (decide (k = k2)).
Qed.
End Distinct.
End LruFacts.

(** ** Name inference *)

Module NameFacts.
Import Text TextFacts LruFacts Samples.


Lemma infer_names_cons f s calls c :
  infer_names ((f, s) :: calls) c = infer_names calls (_infer_name f s c).2.
Proof. reflexivity. Qed.

Lemma infer_names_bounded calls c :
  (Lru.currsize c ≤ maxsize)%nat → (Lru.currsize (infer_names calls c) ≤ maxsize)%nat.
Proof.
  revert c. induction calls as [|[f s] calls IH]; intros c Hc; [done|].
  rewrite infer_names_cons. apply IH. unfold _infer_name. apply call_bounded; [|done].
  unfold maxsize. lia.
Qed.

Lemma looked_up_cons f s calls :
  looked_up ((f, s) :: calls) = {[fn_id f]} ∪ looked_up calls.
Proof. reflexivity. Qed.

Lemma infer_names_keeps_held func n calls : ∀ S c,
  Forall (λ call, fn_id call.1 ≠ fn_id func) calls →
  (size (S ∪ looked_up calls) < maxsize)%nat →
  Lru.held (fn_id func) n S (Lru.entries c) →
  Lru.held (fn_id func) n (S ∪ looked_up calls) (Lru.entries (infer_names calls c)).
Proof.
  induction calls as [|[f s] calls IH]; intros S c Hall Hsize Hheld.
  - unfold looked_up. cbn. by rewrite (right_id_L ∅ (∪)).
  - apply Forall_cons in Hall as [Hne Hall].
    rewrite looked_up_cons, (assoc_L (∪)) in Hsize |- *.
    rewrite infer_names_cons. apply IH; [done | done |].
    unfold _infer_name. apply call_keeps_held; [done | | done].
    eapply Nat.le_lt_trans; [|exact Hsize].
    apply subseteq_size, union_subseteq_l.
Qed.

Lemma infer_name_held func stack c :
  Lru.held (fn_id func) (_infer_name func stack c).1 ∅
    (Lru.entries (_infer_name func stack c).2).
Proof.
  unfold _infer_name, Lru.call.
  destruct (Lru.find (fn_id func) (Lru.entries c)) as [v|] eqn:E; cbn.
  - exists (Lru.remove (fn_id func) (Lru.entries c)), [].
    split_and!; [done | apply find_remove_same | apply NoDup_nil_2 | done].
  - eexists _, []. split_and!; [done | | apply NoDup_nil_2 | done].
    unfold Lru.make_room. destruct (_ <? _)%nat; [done | by apply find_tail_miss].
Qed.

Lemma infer_name_hit func stack c n :
  Lru.find (fn_id func) (Lru.entries c) = Some n → (_infer_name func stack c).1 = n.
Proof. apply call_hit. Qed.

Lemma infer_name_miss func stack c :
  Lru.find (fn_id func) (Lru.entries c) = None →
  (_infer_name func stack c).1 = infer_name_uncached func stack.
Proof. intros Hm. unfold _infer_name. by rewrite call_miss. Qed.





(** C9, as the code has it.  The cache is keyed by the identity of the
    callable: a cached callable gets its stored name whatever its attributes
    and call site now are.  A name returned once is returned again after any
    run of lookups of fewer than 1024 other callables, however often each is
    looked up.  A cache grown from the
    empty one never holds more than 1024 entries.  A miss infers the name
    afresh and stores it as the most recent entry; on a full cache it first
    drops the entry whose last use is the oldest and keeps the rest.  A hit
    drops nothing and makes the entry the most recent one. *)
Theorem infer_name_cache func stack c :
  let first := _infer_name func stack c in
  (∀ func' stack' n,
     fn_id func' = fn_id func → Lru.find (fn_id func) (Lru.entries c) = Some n →
     (_infer_name func' stack' c).1 = n)
  ∧ (∀ calls func' stack',
       fn_id func' = fn_id func →
       Forall (λ call, fn_id call.1 ≠ fn_id func) calls →
       (size (looked_up calls) < 1024)%nat →
       (_infer_name func' stack' (infer_names calls first.2)).1 = first.1)
  ∧ (∀ calls, (Lru.currsize (infer_names calls Lru.empty) ≤ 1024)%nat)
  ∧ (Lru.find (fn_id func) (Lru.entries c) = None →
       first.1 = infer_name_uncached func stack)
  ∧ (Lru.find (fn_id func) (Lru.entries c) = None →
       (Lru.currsize c < 1024)%nat →
       Lru.entries first.2 = Lru.entries c ++ [(fn_id func, first.1)])
  ∧ (Lru.find (fn_id func) (Lru.entries c) = None →
       (1024 ≤ Lru.currsize c)%nat →
       Lru.entries first.2 = tail (Lru.entries c) ++ [(fn_id func, first.1)])
  ∧ (∀ n, Lru.find (fn_id func) (Lru.entries c) = Some n →
       Lru.entries first.2 = Lru.remove (fn_id func) (Lru.entries c) ++ [(fn_id func, n)]).
Proof.
  cbv zeta. split_and!.
  - intros func' stack' n Hid Hn. apply infer_name_hit. by rewrite Hid.
  - intros calls func' stack' Hid Hall Hlen. apply infer_name_hit. rewrite Hid.
    apply held_find with (S := ∅ ∪ looked_up calls).
    apply infer_names_keeps_held;
      [done | by rewrite (left_id_L ∅ (∪)) | apply infer_name_held].
  - intros calls. apply (infer_names_bounded calls Lru.empty).
    unfold Lru.currsize, maxsize. cbn. lia.
  - apply infer_name_miss.
  - intros Hmiss Hroom. unfold _infer_name, Lru.call, Lru.make_room. rewrite Hmiss.
    cbn [fst snd Lru.entries]. unfold Lru.currsize, maxsize in *.
    by destruct (Nat.ltb_spec (length (Lru.entries c)) 1024); [|lia].
  - intros Hmiss Hfull. unfold _infer_name, Lru.call, Lru.make_room. rewrite Hmiss.
    cbn [fst snd Lru.entries]. unfold Lru.currsize, maxsize in *.
    by destruct (Nat.ltb_spec (length (Lru.entries c)) 1024); [lia|].
  - intros n Hn. unfold _infer_name, Lru.call. by rewrite Hn.
Qed.

(** A lambda named at an assignment keeps that name while 1023 other
    functions are looked up, some of them twice, wherever it is wrapped
    next. *)
Lemma infer_name_cache_witness :
  (_infer_name (anonymous 0) (site "register(trace(g))")
     (infer_names (others 1023 ++ others 40)
        (_infer_name (anonymous 0) (site "handler = trace(g)") Lru.empty).2)).1
  = "handler".
Proof.
  apply (proj1 (proj2 (infer_name_cache (anonymous 0) (site "handler = trace(g)")
                         Lru.empty))
           (others 1023 ++ others 40) (anonymous 0) (site "register(trace(g))")).
  - reflexivity.
  - refine (bool_decide_unpack _ _). vm_compute. exact I.
  - apply Nat.ltb_lt. vm_compute. reflexivity.
Defined.

(** C9 as stated fails: after 1024 lookups of other functions the entry has
    been evicted, and the next lookup of the same lambda, at a call site with
    no assignment, gives another name. *)
Lemma infer_name_changes_after_eviction :
  let g := anonymous 0 in
  let first := _infer_name g (site "handler = trace(g)") Lru.empty in
  let later := _infer_name g (site "register(trace(g))") (infer_names (others 1024) first.2) in
  first.1 = "handler" ∧ later.1 = "unnamed" ∧ first.1 ≠ later.1.
Proof. vm_compute. split_and!; [reflexivity | reflexivity | discriminate]. Qed.

End NameFacts.

(** ** Scoped baggage and the root-context reset *)

Module ScopeFacts.
Import Samples.

Lemma set_baggage_fold (m : gmap string pyval) (ctx0 : Context) :
  map_fold (λ key value ctx, set_baggage key (PyStr (py_str value)) ctx) ctx0 m
  = mkContext (ctx_span ctx0) ((stored <$> m) ∪ ctx_baggage ctx0).
Proof.
  apply (map_fold_weak_ind
           (λ r m, r = mkContext (ctx_span ctx0) ((stored <$> m) ∪ ctx_baggage ctx0))).
  - rewrite fmap_empty, (left_id_L ∅ (∪)). by destruct ctx0.
  - intros k v m' r _ ->. unfold set_baggage. cbn.
    by rewrite fmap_insert, insert_union_l.
Qed.

Lemma stored_union_absorbs (given prior : gmap string pyval) :
  (stored <$> (given ∪ prior)) ∪ prior = stored <$> (given ∪ prior).
Proof.
  apply map_eq. intros k.
  rewrite lookup_union, !lookup_fmap, lookup_union.
  by destruct (given !! k), (prior !! k).
Qed.

(** [with_baggage] runs its body under the merged context and puts the prior
    context back, whatever the body did and however it ended. *)
Lemma with_baggage_run {A} baggage (body : M A) rt :
  with_baggage baggage body rt
  = ((body (set_current (baggage_scope baggage (rt_current rt)) rt)).1,
     set_current (rt_current rt)
       (body (set_current (baggage_scope baggage (rt_current rt)) rt)).2).
Proof.
  unfold with_baggage, baggage_scope, get_all.
  unfold mbind, M_bind, get_current, attach, try_finally, detach. cbn beta iota.
  rewrite set_baggage_fold, stored_union_absorbs.
  by destruct (body _).
Qed.

Lemma with_new_context_run {A} (body : M A) rt :
  with_new_context body rt
  = ((body (set_current empty_context rt)).1,
     set_current (rt_current rt) (body (set_current empty_context rt)).2).
Proof.
  unfold with_new_context, mbind, M_bind, attach, try_finally, detach. cbn beta iota.
  by destruct (body _).
Qed.

Lemma attempt_run {A} (m : M A) rt : attempt m rt = (Return (m rt).1, (m rt).2).
Proof. unfold attempt. by destruct (m rt). Qed.

(** C3.  Inside a [with_baggage] scope the body starts under a context whose
    baggage is the prior baggage with the given entries laid over it, every
    value stored as text: a given key carries the text of the given value,
    any other key carries the text of the prior value, and every key of the
    prior baggage is still there.  When the prior values are texts, as the
    data model has them, they are unchanged. *)
Theorem with_baggage_merges {A} (baggage : gmap string pyval) (body : M A) rt :
  let prior := get_all (rt_current rt) in
  ∃ scope,
    (with_baggage baggage body rt).1 = (body (set_current scope rt)).1
    ∧ (with_baggage baggage current_baggage rt).1 = Return (get_all scope)
    ∧ get_all scope = stored <$> (baggage ∪ prior)
    ∧ (∀ k v, baggage !! k = Some v → get_all scope !! k = Some (PyStr (py_str v)))
    ∧ (∀ k, baggage !! k = None → get_all scope !! k = stored <$> prior !! k)
    ∧ dom prior ⊆ dom (get_all scope)
    ∧ dom (get_all scope) = dom baggage ∪ dom prior
    ∧ (map_Forall (λ _ v, is_str v) prior →
         get_all scope = (stored <$> baggage) ∪ prior).
Proof.
  cbv zeta. exists (baggage_scope baggage (rt_current rt)).
  rewrite !with_baggage_run. unfold baggage_scope, get_all. cbn [ctx_baggage fst].
  split_and!; try done.
  - intros k v Hk. rewrite lookup_fmap, lookup_union, Hk.
    by destruct (ctx_baggage (rt_current rt) !! k).
  - intros k Hk. by rewrite !lookup_fmap, lookup_union, Hk, (left_id_L None _).
  - rewrite dom_fmap_L, dom_union_L. set_solver.
  - by rewrite dom_fmap_L, dom_union_L.
  - intros Hstr. rewrite map_fmap_union. f_equal.
    apply map_eq. intros k. rewrite lookup_fmap.
    destruct (ctx_baggage (rt_current rt) !! k) as [v|] eqn:E; [|done].
    apply Hstr in E. by destruct v.
Qed.

(** An order id, a number, is added as text and the tenant is overridden. *)
Lemma with_baggage_merges_witness :
  let prior : gmap string pyval := {[ "tenant.id" := PyStr "acme" ]} in
  let given : gmap string pyval :=
    <["order.id" := PyInt 42]> {[ "tenant.id" := PyStr "globex" ]} in
  ∃ seen,
    (with_baggage given current_baggage (set_current (mkContext None prior) initial)).1
    = Return seen
    ∧ seen = (stored <$> given) ∪ prior
    ∧ seen !! "order.id" = Some (PyStr "42")
    ∧ seen !! "tenant.id" = Some (PyStr "globex").
Proof.
  cbv zeta.
  destruct (with_baggage_merges
              (<["order.id" := PyInt 42]> {[ "tenant.id" := PyStr "globex" ]})
              current_baggage
              (set_current (mkContext None {[ "tenant.id" := PyStr "acme" ]}) initial))
    as (scope & _ & Hseen & _ & Hgiven & _ & _ & _ & Htext).
  exists (get_all scope). split_and!.
  - exact Hseen.
  - apply Htext. cbn. by apply map_Forall_singleton.
  - apply (Hgiven "order.id" (PyInt 42)). reflexivity.
  - apply (Hgiven "tenant.id" (PyStr "globex")). reflexivity.
Defined.

(** C4.  When a [with_baggage] scope exits, with a value or with an
    exception, the context that was current before it is current again, so
    the code that follows sees the prior baggage, and the outcome of the body
    is the outcome of the scope.  Nested scopes: once
    an inner scope has exited, however it ended, the code of the outer
    scope sees the very context it saw before the inner scope was entered,
    which holds the outer entries over the prior ones and nothing of the
    inner scope. *)
Theorem with_baggage_restores {A} (baggage : gmap string pyval) (body : M A) rt :
  rt_current (with_baggage baggage body rt).2 = rt_current rt
  ∧ (current_baggage (with_baggage baggage body rt).2).1 = Return (get_all (rt_current rt))
  ∧ (with_baggage baggage body rt).1
    = (body (set_current (baggage_scope baggage (rt_current rt)) rt)).1
  ∧ (∀ e, with_baggage baggage (raise e : M A) rt = (Raise e, rt))
  ∧ (∀ outer : gmap string pyval,
       (with_baggage outer
          (before ← get_current;
           attempt (with_baggage baggage body);;
           after ← get_current;
           mret (before, after)) rt).1
       = Return (baggage_scope outer (rt_current rt),
                 baggage_scope outer (rt_current rt))).
Proof.
  split_and!.
  - by rewrite with_baggage_run.
  - by rewrite with_baggage_run.
  - by rewrite with_baggage_run.
  - intros e. rewrite with_baggage_run. by destruct rt.
  - intros outer. rewrite with_baggage_run. cbn [fst].
    set (rt1 := set_current (baggage_scope outer (rt_current rt)) rt).
    unfold mbind at 1, M_bind at 1. unfold get_current at 1.
    unfold mbind at 1, M_bind at 1. rewrite attempt_run, with_baggage_run.
    cbn [fst snd]. reflexivity.
Qed.

(** A span opened where no span is current starts a trace of its own, with
    an identifier drawn from the supply; otherwise it joins the trace of the
    current span. *)
Lemma new_span_trace_id span_name rt :
  (trace_id_of_new_span span_name rt).1
  = Return (match ctx_span (rt_current rt) with
            | Some p => trace_id p
            | None => rt_ids rt
            end).
Proof.
  unfold trace_id_of_new_span, span, run_in_operation_context, start_as_current_span,
    start_span, use_span.
  unfold mbind, M_bind, mret, M_ret, get_operation, modify, try_finally, on_error,
    get_current, attach, detach, generate_id, end_span.
  destruct rt as [[sp bag] op ids live fin names]. cbn.
  destruct sp as [p|]; cbn; by rewrite lookup_insert_eq.
Qed.




(** The sample runtime is the one that the body of [with span("parent")]
    finds when the span is opened in the initial runtime. *)
Example inside_parent_reached :
  (span "parent" (λ _ rt, (Return rt, rt)) initial).1 = Return inside_parent.
Proof. vm_compute. reflexivity. Qed.


(** The test [test_with_new_context], run from the initial runtime: the two
    trace ids differ and two spans are finished, the child first. *)
Example test_with_new_context :
  let program :=
    span "parent" (λ parent_ctx,
      child ← with_new_context (span "child" (λ child_ctx, mret (ctx_trace_id child_ctx)));
      mret (ctx_trace_id parent_ctx, child)) in
  (program initial).1 = Return (1%N, 3%N)
  ∧ name <$> rt_finished (program initial).2 = ["child"; "parent"]
  ∧ rt_current (program initial).2 = empty_context.
Proof. vm_compute. done. Qed.

(** The tests of test_context.py and [test_span_context_manager], each run
    from the initial runtime: what the handle writes is on the one finished
    span. *)
Example test_trace_context_set_attribute :
  let program :=
    span "test.operation" (λ ctx,
      set_attribute (otel_span ctx) "test.key" (PyStr "test.value");;
      set_attribute (otel_span ctx) "test.number" (PyInt 42);;
      set_attribute (otel_span ctx) "test.bool" (PyBool true)) in
  (λ s, (name s, attributes s !! "test.key", attributes s !! "test.number",
         attributes s !! "test.bool")) <$> rt_finished (program initial).2
  = [("test.operation", Some (PyStr "test.value"), Some (PyInt 42), Some (PyBool true))].
Proof. vm_compute. reflexivity. Qed.

Example test_trace_context_add_event :
  let program :=
    span "test.operation" (λ ctx,
      add_event (otel_span ctx) "test.event" {[ "event.key" := PyStr "event.value" ]}) in
  (λ s, event_name <$> events s) <$> rt_finished (program initial).2 = [["test.event"]].
Proof. vm_compute. reflexivity. Qed.

Example test_trace_context_set_status :
  let program :=
    span "test.operation" (λ ctx,
      set_status (otel_span ctx) ERROR (Some "Test error")) in
  status <$> rt_finished (program initial).2 = [mkStatus ERROR (Some "Test error")].
Proof. vm_compute. reflexivity. Qed.

Example test_trace_context_record_exception :
  let program :=
    span "test.operation" (λ ctx,
      caught ← attempt (raise (Exn "ValueError" "Test exception") : M unit);
      match caught with
      | Raise e => record_exception (otel_span ctx) e
      | Return _ => mret tt
      end) in
  (program initial).1 = Return tt
  ∧ (λ s, (status s, event_name <$> events s)) <$> rt_finished (program initial).2
    = [(mkStatus UNSET None, ["exception"])].
Proof. vm_compute. done. Qed.

End ScopeFacts.

(** ** The wrapper and batch instrumentation *)

Module WrapperFacts.
Import Samples.

Lemma apply_op_update h op : apply_op h op = update_span h (op_on_span op).
Proof. by destruct op. Qed.

Lemma for_each_ops h ops rt :
  for_each (apply_op h) ops rt
  = (Return tt, set_live (alter (span_after_ops ops) (span_id h) (rt_live rt)) rt).
Proof.
  revert rt. induction ops as [|op ops IH]; intros rt.
  - cbn. rewrite alter_id by done. by destruct rt.
  - cbn [for_each]. unfold mbind, M_bind. rewrite apply_op_update.
    unfold update_span, modify. rewrite IH. cbn. f_equal.
    destruct rt; unfold set_live; cbn. f_equal.
    rewrite alter_alter_eq. reflexivity.
Qed.

Lemma span_after_ops_name ops s : name (span_after_ops ops s) = name s.
Proof.
  revert s. induction ops as [|op ops IH]; intros s; [done|].
  cbn. rewrite IH. by destruct op.
Qed.

Lemma span_after_ops_status ops s : status (span_after_ops ops s) = status s.
Proof.
  revert s. induction ops as [|op ops IH]; intros s; [done|].
  cbn. rewrite IH. by destruct op.
Qed.

(** One call of a wrapped callable: its outcome is the outcome of the
    function, one span reaches the exporter, and the context and the operation
    name are as before. *)
Lemma invoke_run w args rt :
  let run := invoke w args rt in
  let body := fn_body (w_func w) args in
  run.1 = body.2
  ∧ rt_finished run.2
    = rt_finished rt ++ [closed_span body.2 (span_after_ops body.1 (opened (w_name w) rt))]
  ∧ rt_current run.2 = rt_current rt
  ∧ rt_operation run.2 = rt_operation rt
  ∧ rt_names run.2 = rt_names rt.
Proof.
  cbv zeta. unfold invoke, run_in_operation_context, start_span, use_span, run_body.
  destruct (fn_body (w_func w) args) as [ops out].
  destruct rt as [[sp bag] op ids live fin names].
  unfold opened. cbn [rt_current ctx_span rt_ids fst snd].
  destruct sp as [p|], out as [v|e];
    unfold mbind, M_bind, mret, M_ret, get_operation, modify, try_finally, on_error,
      get_current, attach, detach, generate_id, end_span, raise,
      set_status, record_exception, update_span;
    cbn; rewrite for_each_ops; cbn;
    rewrite ?alter_insert_eq, ?lookup_insert_eq; cbn;
    rewrite ?span_after_ops_status; cbn; done.
Qed.


Lemma opened_name span_name rt : name (opened span_name rt) = span_name.
Proof. unfold opened. by destruct (ctx_span _). Qed.

Lemma opened_status span_name rt : status (opened span_name rt) = mkStatus UNSET None.
Proof. unfold opened. by destruct (ctx_span _). Qed.

Lemma closed_span_name out s : name (closed_span out s) = name s.
Proof. by destruct out. Qed.



Lemma instrument_run operations stack rt :
  instrument operations stack rt = (Return (wrap_item <$> operations), rt).
Proof.
  induction operations as [|[key func] rest IH]; [done|].
  cbn [instrument trace]. unfold mbind, M_bind, mret, M_ret in *. by rewrite IH.
Qed.

Lemma dict_get_wrapped key operations :
  dict_get key (wrap_item <$> operations)
  = (λ func, mkWrapped func key) <$> dict_get key operations.
Proof.
  induction operations as [|[k func] rest IH]; [done|].
  cbn. destruct (decide (key = k)) as [->|]; [done | exact IH].
Qed.

(** C1.  [instrument] returns a mapping with the keys of its argument, in
    the same order, each function wrapped under its key; it changes nothing
    in the runtime, and the name cache in particular serves no lookup.  Every
    call of a wrapped entry ends as the function ends and hands the exporter
    exactly one span, named by the key.  For the lambda that adds, the entry
    under [add] called on 2 and 3 returns 5 and leaves one finished span
    named [add]. *)
Theorem instrument_wraps operations stack rt :
  ∃ service,
    instrument operations stack rt = (Return service, rt)
    ∧ service.*1 = operations.*1
    ∧ (∀ key, dict_get key service
              = (λ func, mkWrapped func key) <$> dict_get key operations)
    ∧ Lru.lookups (rt_names (instrument operations stack rt).2) = Lru.lookups (rt_names rt)
    ∧ (∀ key w args rt',
         dict_get key service = Some w →
         ∃ sp, (invoke w args rt').1 = (fn_body (w_func w) args).2
               ∧ rt_finished (invoke w args rt').2 = rt_finished rt' ++ [sp]
               ∧ name sp = key)
    ∧ (∃ service' w sp,
         (instrument [("add", add)] stack rt).1 = Return service'
         ∧ dict_get "add" service' = Some w
         ∧ (invoke w [PyInt 2; PyInt 3] initial).1 = Return (PyInt 5)
         ∧ rt_finished (invoke w [PyInt 2; PyInt 3] initial).2 = [sp]
         ∧ name sp = "add").
Proof.
  exists (wrap_item <$> operations). rewrite !instrument_run. split_and!.
  - done.
  - induction operations as [|[k func] rest IH]; [done|].
    rewrite !fmap_cons. cbn [wrap_item fst snd]. by rewrite IH.
  - intros key. apply dict_get_wrapped.
  - done.
  - intros key w args rt' Hw. rewrite dict_get_wrapped in Hw.
    destruct (dict_get key operations) as [func|]; [|done]. injection Hw as <-.
    destruct (invoke_run (mkWrapped func key) args rt') as (Hout & Hfin & _).
    eexists. split_and!; [exact Hout | exact Hfin |].
    by rewrite closed_span_name, span_after_ops_name, opened_name.
  - eexists _, _, _. split_and!; [reflexivity | reflexivity | | |];
      vm_compute; reflexivity.
Qed.

(** The test [test_instrument_batch]: two lambdas under the keys [add] and
    [multiply]; each wrapped entry leaves one span named by its key. *)
Lemma instrument_wraps_witness :
  ∃ service w_add w_mul sp_add sp_mul,
    (instrument [("add", add); ("multiply", multiply)] None initial).1 = Return service
    ∧ dict_get "add" service = Some w_add
    ∧ dict_get "multiply" service = Some w_mul
    ∧ rt_finished (invoke w_add [PyInt 2; PyInt 3] initial).2 = [sp_add]
    ∧ name sp_add = "add"
    ∧ rt_finished (invoke w_mul [PyInt 2; PyInt 3] initial).2 = [sp_mul]
    ∧ name sp_mul = "multiply".
Proof.
  destruct (instrument_wraps [("add", add); ("multiply", multiply)] None initial)
    as (service & Hrun & _ & Hget & _ & Hcall & _).
  pose proof (Hget "add") as Hadd. pose proof (Hget "multiply") as Hmul.
  cbn in Hadd, Hmul.
  destruct (Hcall "add" _ [PyInt 2; PyInt 3] initial Hadd) as (sp_add & _ & Hf1 & Hn1).
  destruct (Hcall "multiply" _ [PyInt 2; PyInt 3] initial Hmul) as (sp_mul & _ & Hf2 & Hn2).
  exists service, (mkWrapped add "add"), (mkWrapped multiply "multiply"), sp_add, sp_mul.
  split_and!; [by rewrite Hrun | exact Hadd | exact Hmul | exact Hf1 | exact Hn1
              | exact Hf2 | exact Hn2].
Defined.

(** The test [test_instrument_batch], run call after call. *)
Example test_instrument_batch :
  let program :=
    service ← instrument [("add", add); ("multiply", multiply)] None;
    match dict_get "add" service, dict_get "multiply" service with
    | Some service_add, Some service_multiply =>
        a ← invoke service_add [PyInt 2; PyInt 3];
        m ← invoke service_multiply [PyInt 2; PyInt 3];
        mret (a, m)
    | _, _ => raise (Exn "KeyError" "missing")
    end in
  (program initial).1 = Return (PyInt 5, PyInt 6)
  ∧ name <$> rt_finished (program initial).2 = ["add"; "multiply"].
Proof. vm_compute. done. Qed.

(** The test [test_instrument_with_context_parameter]: only the entry under
    [create] is called; it returns its argument and leaves one span, named by
    the key and not by the function, with the attribute the function set. *)
Example test_instrument_with_context_parameter :
  let program :=
    service ← instrument [("create", create_user); ("get", named 9)] None;
    match dict_get "create" service with
    | Some service_create => invoke service_create [PyStr "123"]
    | None => raise (Exn "KeyError" "create")
    end in
  (program initial).1 = Return (PyStr "123")
  ∧ name <$> rt_finished (program initial).2 = ["create"]
  ∧ (λ s, attributes s !! "user.id") <$> rt_finished (program initial).2
    = [Some (PyStr "123")].
Proof. vm_compute. done. Qed.

End WrapperFacts.

(** ** The PostHog subscriber *)

Module PostHogFacts.
Import PostHog.

Section Subscriber.
Variable deliver : string → Payload → option exn.
Variable aclose : AsyncClient → option exn.

Lemma py_or_falsy a b : truthy a = false → truthy b = false → truthy (py_or a b) = false.
Proof. unfold py_or. by intros -> ->. Qed.

Lemma init_returns httpx key h legacy self :
  __init__ httpx key h legacy = Return self →
  httpx = true ∧ truthy (py_or key legacy) = true
  ∧ self = mkPostHogSubscriber (py_or key legacy) (Text.rstrip_slash h)
             (Some (mkAsyncClient 5)).
Proof.
  unfold __init__. destruct httpx; [|done]. cbn.
  destruct (truthy (py_or key legacy)); [|done]. cbn. by intros [= <-].
Qed.

Lemma send_raises self event properties net e :
  (send deliver self event properties net).1.1 = Raise e →
  deliver (host self +:+ "/capture/")
    (mkPayload (api_key self) event (default ∅ properties)) = Some e.
Proof.
  unfold send. destruct (client self); [|done].
  destruct (deliver _ _); [|done]. cbn. by intros [= <-].
Qed.

Lemma shutdown_raises self net e :
  (shutdown aclose self net).1.1 = Raise e →
  ∃ c, client self = Some c ∧ aclose c = Some e.
Proof.
  unfold shutdown. destruct (client self) as [c|]; [|done].
  destruct (aclose c) eqn:E; [|done]. cbn. intros [= <-]. by exists c.
Qed.

(** C7.  The constructor itself raises the configuration errors: an
    ImportError whenever the HTTP library is missing, and a ValueError when
    it is there and both the key and the legacy key are absent or empty.
    When it returns, the library was there and the subscriber holds a
    non-empty key and a client; from then on [send] and [shutdown] raise
    only what the HTTP client raises. *)
Theorem init_fails_fast (key legacy : option string) (h : string) :
  __init__ false key h legacy
  = Raise (Exn "ImportError"
             "httpx is required for PostHogSubscriber. Install with: pip install httpx")
  ∧ (truthy key = false → truthy legacy = false →
       __init__ true key h legacy = Raise (Exn "ValueError" "api_key is required"))
  ∧ (∀ httpx, is_return (__init__ httpx key h legacy) = true
              ↔ httpx = true ∧ (truthy key = true ∨ truthy legacy = true))
  ∧ (∀ httpx self,
       __init__ httpx key h legacy = Return self →
       httpx = true
       ∧ (truthy key = true ∨ truthy legacy = true)
       ∧ truthy (api_key self) = true
       ∧ is_Some (client self)
       ∧ (∀ event properties net e,
            (send deliver self event properties net).1.1 = Raise e →
            deliver (host self +:+ "/capture/")
              (mkPayload (api_key self) event (default ∅ properties)) = Some e)
       ∧ (∀ net e,
            (shutdown aclose self net).1.1 = Raise e →
            ∃ c, client self = Some c ∧ aclose c = Some e)).
Proof.
  split_and!.
  - reflexivity.
  - intros Hk Hl. unfold __init__. cbn. by rewrite py_or_falsy.
  - intros httpx. unfold __init__, py_or.
    destruct httpx, (truthy key) eqn:Hk, (truthy legacy) eqn:Hl; cbn;
      rewrite ?Hk, ?Hl; cbn; intuition congruence.
  - intros httpx self Hinit. apply init_returns in Hinit as (-> & Hkey & ->).
    cbn [api_key client]. split_and!; [done | | done | by eexists | |].
    + unfold py_or in Hkey. destruct (truthy key); [by left | by right].
    + intros event properties net e. apply send_raises.
    + intros net e. apply shutdown_raises.
Qed.

Lemma shutdown_returned self net self1 net1 :
  shutdown aclose self net = (Return tt, self1, net1) → client self1 = None.
Proof.
  unfold shutdown. destruct (client self) as [c|] eqn:Ec.
  - destruct (aclose c); [done|]. by intros [= <- <-].
  - by intros [= <- <-].
Qed.

(** C8.  Once a call of [shutdown] has returned, a second call returns as
    well and changes nothing: the subscriber stays without a client and no
    client is closed again. *)
Theorem shutdown_idempotent self net self1 net1 :
  shutdown aclose self net = (Return tt, self1, net1) →
  client self1 = None
  ∧ shutdown aclose self1 net1 = (Return tt, self1, net1)
  ∧ closed (shutdown aclose self1 net1).2 = closed net1.
Proof.
  intros Hs. pose proof (shutdown_returned _ _ _ _ Hs) as Hc.
  unfold shutdown at 1 2. by rewrite Hc.
Qed.

(** C10.  Once [shutdown] has returned, [send] returns at once for every
    event and every properties: nothing is posted, nothing is logged,
    nothing is raised, and the subscriber is as it was, so the same holds
    for each later call. *)
Theorem send_after_shutdown self net self1 net1 event properties net' :
  shutdown aclose self net = (Return tt, self1, net1) →
  send deliver self1 event properties net' = (Return tt, self1, net').
Proof.
  intros Hs. pose proof (shutdown_returned _ _ _ _ Hs) as Hc.
  unfold send. by rewrite Hc.
Qed.
End Subscriber.

Import Samples.

(** No key at all and an empty legacy key: the constructor raises.  A key
    ending the host with a slash: the subscriber is built with a key and a
    client, and a request that the far end refuses is the only thing [send]
    raises. *)
Lemma init_fails_fast_witness :
  __init__ true None "https://app.posthog.com" (Some EmptyString)
  = Raise (Exn "ValueError" "api_key is required")
  ∧ truthy (api_key subscriber) = true
  ∧ is_Some (client subscriber)
  ∧ ∀ net e, (send refusing subscriber "order.created" None net).1.1 = Raise e →
             e = Exn "HTTPStatusError" "Server error 503 for url".
Proof.
  destruct (init_fails_fast refusing closing None (Some EmptyString)
              "https://app.posthog.com") as (_ & Hvalue & _).
  destruct (init_fails_fast refusing closing (Some "phc_test") None
              "https://app.posthog.com/") as (_ & _ & _ & Hbuilt).
  destruct (Hbuilt true subscriber eq_refl) as (_ & _ & Hkey & Hclient & Hsend & _).
  split_and!.
  - apply Hvalue; reflexivity.
  - exact Hkey.
  - exact Hclient.
  - intros net e He. apply Hsend in He. by injection He as <-.
Defined.

(** Shutting the sample subscriber down twice *)
Lemma shutdown_idempotent_witness :
  shutdown closing subscriber_down (mkNet [] [mkAsyncClient 5] [])
  = (Return tt, subscriber_down, mkNet [] [mkAsyncClient 5] []).
Proof.
  apply (shutdown_idempotent closing subscriber quiet subscriber_down
           (mkNet [] [mkAsyncClient 5] []) eq_refl).
Defined.

(** Sending through the sample subscriber after its shutdown *)
Lemma send_after_shutdown_witness :
  send refusing subscriber_down "order.created" None quiet
  = (Return tt, subscriber_down, quiet).
Proof.
  apply (send_after_shutdown refusing closing subscriber quiet subscriber_down
           (mkNet [] [mkAsyncClient 5] []) "order.created" None quiet eq_refl).
Defined.

(** A capture request that goes through, and one that the far end refuses:
    the refusal is logged and raised to the caller. *)
Example send_posts_to_capture :
  send accepting subscriber "order.created" None quiet
  = (Return tt, subscriber,
     mkNet [("https://app.posthog.com/capture/",
             mkPayload (Some "phc_test") "order.created" ∅)] [] [])
  ∧ (send refusing subscriber "order.created" None quiet).1.1
    = Raise (Exn "HTTPStatusError" "Server error 503 for url")
  ∧ logged (send refusing subscriber "order.created" None quiet).2
    = ["PostHog send failed: Server error 503 for url"].
Proof. vm_compute. done. Qed.

End PostHogFacts.

(** * Further properties of the code *)

(** ** The subscriber over its life *)

Module PostHogMore.
Import Text TextFacts PostHog PostHogRuns Samples.

Lemma rdrop_while_split p s :
  ∃ t, s = rdrop_while p s +:+ t ∧ all_chars p t = true.
Proof.
  induction s as [|c s (t & Ht & Hp)]; [by exists EmptyString|].
  cbn [rdrop_while]. destruct (rdrop_while p s) as [|c' r] eqn:E.
  - rewrite app_empty in Ht. subst t. destruct (p c) eqn:Hc.
    + exists (String c s). split; [done|]. cbn. by rewrite Hc, Hp.
    + exists s. by split.
  - exists t. split; [|done]. rewrite !app_cons. rewrite app_cons in Ht. by rewrite <- Ht.
Qed.

Lemma all_slashes t :
  all_chars (λ c, bool_decide (c = "/"%char)) t = true → t = slashes (String.length t).
Proof.
  induction t as [|c t IH]; [done|]. cbn. intros [Hc Ht]%andb_prop.
  apply bool_decide_eq_true in Hc as ->. by rewrite <- IH.
Qed.

Lemma rstrip_slash_end s : ends_with_slash (rstrip_slash s) = false.
Proof.
  unfold rstrip_slash. induction s as [|c s IH]; [done|].
  cbn [rdrop_while]. destruct (rdrop_while _ s) as [|c' r] eqn:E.
  - destruct (bool_decide (c = "/"%char)) eqn:Hc; [done|]. cbn. exact Hc.
  - exact IH.
Qed.

Lemma rstrip_slash_fixed s : ends_with_slash s = false → rstrip_slash s = s.
Proof.
  unfold rstrip_slash. induction s as [|c s IH]; [done|].
  cbn [rdrop_while]. destruct s as [|c' r].
  - cbn. by intros ->.
  - intros Hs. rewrite IH by exact Hs. done.
Qed.

Lemma rdrop_slashes n :
  rdrop_while (λ c, bool_decide (c = "/"%char)) (slashes n) = EmptyString.
Proof. induction n as [|n IH]; [done|]. cbn. by rewrite IH. Qed.

Lemma rstrip_slash_app s n :
  ends_with_slash s = false → rstrip_slash (s +:+ slashes n) = s.
Proof.
  unfold rstrip_slash. induction s as [|c s IH]; intros Hend.
  - rewrite app_empty. apply rdrop_slashes.
  - rewrite app_cons. cbn [rdrop_while]. destruct s as [|c' r].
    + rewrite app_empty, rdrop_slashes. cbn in Hend. by rewrite Hend.
    + by rewrite IH.
Qed.

Section Subscriber.
Variable deliver : string → Payload → option exn.
Variable aclose : AsyncClient → option exn.

(** X1.  The host that the constructor stores is the host it was given without
    its trailing slashes, whatever their number: it never ends in a slash, so
    the capture address is joined by a single slash, and a stored host given
    back to the constructor is stored unchanged. *)
Theorem init_strips_host httpx key h legacy self :
  __init__ httpx key h legacy = Return self →
  ends_with_slash (host self) = false
  ∧ (∃ n, h = host self +:+ slashes n)
  ∧ __init__ httpx key (host self) legacy = Return self
  ∧ (∀ n, __init__ httpx key (host self +:+ slashes n) legacy = Return self).
Proof.
  intros Hinit.
  assert (Hhost : host self = rstrip_slash h).
  { unfold __init__ in Hinit. destruct httpx; [|done]. cbn in Hinit.
    destruct (truthy (py_or key legacy)); [|done]. cbn in Hinit. by injection Hinit as <-. }
  assert (Hsame : ∀ h', rstrip_slash h' = rstrip_slash h →
                        __init__ httpx key h' legacy = Return self).
  { intros h' Hh'. unfold __init__ in *. destruct httpx; [|done]. cbn in *.
    destruct (truthy (py_or key legacy)); [|done]. cbn in *. by rewrite Hh'. }
  split_and!.
  - rewrite Hhost. apply rstrip_slash_end.
  - rewrite Hhost. unfold rstrip_slash.
    destruct (rdrop_while_split (λ c, bool_decide (c = "/"%char)) h) as (t & Ht & Hp).
    exists (String.length t). by rewrite <- (all_slashes t Hp).
  - apply Hsame. rewrite Hhost. apply rstrip_slash_fixed, rstrip_slash_end.
  - intros n. apply Hsame. rewrite Hhost. apply rstrip_slash_app, rstrip_slash_end.
Qed.

(** X2.  Every request of a constructed subscriber carries one non-empty key,
    the given key when it is non-empty and the legacy key otherwise, and goes
    to the capture address under the stripped host, with the event and with
    the properties or an empty mapping. *)
Theorem init_then_send httpx key h legacy self :
  __init__ httpx key h legacy = Return self →
  ∃ k, k ≠ EmptyString
       ∧ (key = Some k ∨ (truthy key = false ∧ legacy = Some k))
       ∧ ∀ event properties net,
           posted (send deliver self event properties net).2
           = posted net ++ [(rstrip_slash h +:+ "/capture/",
                             mkPayload (Some k) event (default ∅ properties))].
Proof.
  unfold __init__. destruct httpx; [|done]. cbn.
  destruct (truthy (py_or key legacy)) eqn:Hk; [|done]. cbn. intros [= <-].
  unfold py_or in *. destruct (truthy key) eqn:Hkey.
  - destruct key as [[|c k]|]; try done. exists (String c k).
    split_and!; [done | by left |]. intros event properties net.
    unfold send. cbn. by destruct (deliver _ _).
  - destruct legacy as [[|c k]|]; try done. exists (String c k).
    split_and!; [done | by right |]. intros event properties net.
    unfold send. cbn. by destruct (deliver _ _).
Qed.

Lemma run_calls_down calls self net :
  client self = None → run_calls deliver aclose calls self net = (self, net).
Proof.
  intros Hc. induction calls as [|[ev props|] calls IH]; [done|..]; cbn [run_calls].
  - unfold send. by rewrite Hc.
  - unfold shutdown. by rewrite Hc.
Qed.

Lemma failure_lines_cons r requests :
  failure_lines deliver (r :: requests)
  = failure_lines deliver [r] ++ failure_lines deliver requests.
Proof. destruct r as [url payload]. cbn. by destruct (deliver url payload). Qed.

Lemma run_calls_send ev props calls self net c :
  client self = Some c →
  run_calls deliver aclose (Send ev props :: calls) self net
  = run_calls deliver aclose calls self
      (mkNet (posted net ++ [request self (ev, props)]) (closed net)
         (logged net ++ failure_lines deliver [request self (ev, props)])).
Proof.
  intros Hc. cbn [run_calls]. unfold send, request. rewrite Hc. cbn [fst snd failure_lines].
  destruct (deliver _ _); cbn [posted closed logged]; [done|]. by rewrite app_nil_r.
Qed.

(** X3.  Whatever calls are made on a subscriber whose client closes cleanly, and
    whatever the far end answers: the requests posted are those of the sends
    before the first shutdown, one each and in order; one line is logged for
    each of them that fails; the client is closed once if there is a shutdown
    and never otherwise; and after the calls the subscriber has its client
    exactly when there was no shutdown. *)
Theorem run_calls_closing calls self net c :
  client self = Some c → aclose c = None →
  let after := run_calls deliver aclose calls self net in
  posted after.2 = posted net ++ (request self <$> sends_until_shutdown calls)
  ∧ logged after.2
    = logged net ++ failure_lines deliver (request self <$> sends_until_shutdown calls)
  ∧ closed after.2 = closed net ++ (if has_shutdown calls then [c] else [])
  ∧ client after.1 = (if has_shutdown calls then None else Some c)
  ∧ api_key after.1 = api_key self ∧ host after.1 = host self.
Proof.
  intros Hc Hclose. cbv zeta. revert net.
  induction calls as [|[ev props|] calls IH]; intros net.
  - cbn. by rewrite !app_nil_r.
  - rewrite (run_calls_send _ _ _ _ _ c Hc).
    destruct (IH (mkNet (posted net ++ [request self (ev, props)]) (closed net)
                    (logged net ++ failure_lines deliver [request self (ev, props)])))
      as (Hp & Hl & Hcl & Hcli & Hkey & Hhost).
    rewrite Hp, Hl, Hcl. cbn [posted logged closed sends_until_shutdown].
    rewrite fmap_cons, <- !app_assoc.
    split_and!; [done | | done | exact Hcli | exact Hkey | exact Hhost].
    f_equal. symmetry. apply failure_lines_cons.
  - cbn [run_calls sends_until_shutdown]. unfold has_shutdown. cbn [shutdowns].
    unfold shutdown. rewrite Hc, Hclose. rewrite run_calls_down by done.
    cbn. by rewrite !app_nil_r.
Qed.

(** X4.  When closing the client fails, a shutdown changes nothing in the
    subscriber: whatever calls are made, every send still posts its request
    and every shutdown tries to close the client again. *)
Theorem run_calls_failing_close calls self net c e :
  client self = Some c → aclose c = Some e →
  let after := run_calls deliver aclose calls self net in
  after.1 = self
  ∧ posted after.2 = posted net ++ (request self <$> all_sends calls)
  ∧ closed after.2 = closed net ++ replicate (shutdowns calls) c.
Proof.
  intros Hc Hclose. cbv zeta. revert net.
  induction calls as [|[ev props|] calls IH]; intros net.
  - cbn. by rewrite !app_nil_r.
  - rewrite (run_calls_send _ _ _ _ _ c Hc).
    destruct (IH (mkNet (posted net ++ [request self (ev, props)]) (closed net)
                    (logged net ++ failure_lines deliver [request self (ev, props)])))
      as (Hs & Hp & Hcl).
    rewrite Hs, Hp, Hcl. cbn [posted closed all_sends shutdowns].
    by rewrite fmap_cons, <- !app_assoc.
  - cbn [run_calls all_sends shutdowns replicate].
    unfold shutdown. rewrite Hc, Hclose.
    destruct (IH (mkNet (posted net) (closed net ++ [c]) (logged net))) as (Hs & Hp & Hcl).
    rewrite Hs, Hp, Hcl. cbn [posted closed]. by rewrite <- !app_assoc.
Qed.

End Subscriber.

Import MoreSamples.

(** Three slashes after the host are dropped, and the stored host is stored
    again as it is. *)
Lemma init_strips_host_witness :
  ends_with_slash (host subscriber) = false
  ∧ __init__ true (Some "phc_test") (host subscriber) None = Return subscriber.
Proof.
  destruct (init_strips_host true (Some "phc_test") "https://app.posthog.com///" None
              subscriber eq_refl) as (Hend & _ & Hagain & _).
  split; [exact Hend | exact Hagain].
Defined.

(** An empty key with a legacy key: the legacy key is the one sent. *)
Lemma init_then_send_witness :
  ∃ k, k ≠ EmptyString
       ∧ posted (send accepting
                   (mkPostHogSubscriber (Some "phc_legacy") "https://eu.posthog.com"
                      (Some (mkAsyncClient 5)))
                   "order.created" None quiet).2
         = [("https://eu.posthog.com/capture/", mkPayload (Some k) "order.created" ∅)].
Proof.
  destruct (init_then_send accepting true (Some EmptyString) "https://eu.posthog.com/"
              (Some "phc_legacy") _ eq_refl) as (k & Hk & _ & Hsend).
  exists k. split; [exact Hk|]. exact (Hsend "order.created" None quiet).
Defined.

(** The sample day with a far end that refuses the second event: two
    requests, one logged line, one closed client, nothing after the
    shutdown. *)
Lemma run_calls_closing_witness :
  let after := run_calls picky closing day subscriber quiet in
  (λ r, payload_event r.2) <$> posted after.2 = ["a"; "b"]
  ∧ logged after.2 = ["PostHog send failed: Client error 400"]
  ∧ closed after.2 = [mkAsyncClient 5]
  ∧ client after.1 = None.
Proof.
  cbv zeta.
  destruct (run_calls_closing picky closing day subscriber quiet (mkAsyncClient 5)
              eq_refl eq_refl) as (Hp & Hl & Hc & Hcl & _).
  rewrite Hp, Hl, Hc, Hcl. split_and!; reflexivity.
Defined.

(** The same day with a client that cannot be closed: all three events are
    posted and the client is closed twice. *)
Lemma run_calls_failing_close_witness :
  let after := run_calls accepting stuck day subscriber quiet in
  after.1 = subscriber
  ∧ (λ r, payload_event r.2) <$> posted after.2 = ["a"; "b"; "c"]
  ∧ closed after.2 = [mkAsyncClient 5; mkAsyncClient 5].
Proof.
  cbv zeta.
  destruct (run_calls_failing_close accepting stuck day subscriber quiet (mkAsyncClient 5)
              (Exn "RuntimeError" "transport is busy") eq_refl eq_refl) as (Hs & Hp & Hc).
  rewrite Hs, Hp, Hc. split_and!; reflexivity.
Defined.

End PostHogMore.

(** ** Scopes that nest *)

Module ScopeMore.
Import ScopeFacts Samples.

Lemma stored_stored v : stored (stored v) = stored v.
Proof. reflexivity. Qed.

Lemma stored_text v : is_str v → stored v = v.
Proof. by destruct v. Qed.

Lemma set_current_twice a b rt : set_current a (set_current b rt) = set_current a rt.
Proof. by destruct rt. Qed.

Lemma set_current_same rt : set_current (rt_current rt) rt = rt.
Proof. by destruct rt. Qed.

Lemma baggage_scope_twice (inner outer : gmap string pyval) ctx :
  baggage_scope inner (baggage_scope outer ctx) = baggage_scope (inner ∪ outer) ctx.
Proof.
  unfold baggage_scope. cbn. f_equal. apply map_eq. intros k.
  rewrite !lookup_fmap, !lookup_union, !lookup_fmap, !lookup_union.
  by destruct (inner !! k), (outer !! k), (ctx_baggage ctx !! k).
Qed.

(** X5.  A [with_baggage] scope nested in another one is the same as one scope
    with the two mappings merged, the inner entries over the outer ones: the
    body sees the same context, ends the same way and leaves the same
    runtime. *)
Theorem with_baggage_nested {A} (outer inner : gmap string pyval) (body : M A) rt :
  with_baggage outer (with_baggage inner body) rt
  = with_baggage (inner ∪ outer) body rt.
Proof.
  rewrite !with_baggage_run. cbn [fst snd rt_current].
  replace (rt_current (set_current (baggage_scope outer (rt_current rt)) rt))
    with (baggage_scope outer (rt_current rt)) by by destruct rt.
  by rewrite baggage_scope_twice, !set_current_twice.
Qed.

(** X6.  Giving [with_baggage] nothing, or only entries that the text-valued
    baggage already holds, changes nothing for the body: it runs in the
    runtime as it is, and only the current context is put back on exit. *)
Theorem with_baggage_present {A} (baggage : gmap string pyval) (body : M A) rt :
  map_Forall (λ _ v, is_str v) (get_all (rt_current rt)) →
  map_Forall (λ k v, get_all (rt_current rt) !! k = Some (stored v)) baggage →
  with_baggage baggage body rt = ((body rt).1, set_current (rt_current rt) (body rt).2).
Proof.
  intros Htext Hpresent. rewrite with_baggage_run.
  assert (baggage_scope baggage (rt_current rt) = rt_current rt) as ->;
    [|by rewrite set_current_same].
  unfold baggage_scope, get_all in *. destruct (rt_current rt) as [sp bag]. cbn in *.
  f_equal. apply map_eq. intros k. rewrite lookup_fmap, lookup_union.
  destruct (baggage !! k) as [v|] eqn:Hk.
  - rewrite (Hpresent k v Hk). cbn. by rewrite (left_id_L None _) || done.
  - rewrite (left_id_L None _). destruct (bag !! k) as [v|] eqn:Hb; [|done].
    cbn. f_equal. apply stored_text. by apply (Htext k v).
Qed.

(** The tenant is given again, as it is: the body runs in the runtime as it
    is and sees the same baggage. *)
Lemma with_baggage_present_witness :
  with_baggage {[ "tenant.id" := PyStr "acme" ]} current_baggage MoreSamples.with_tenant
  = (Return {[ "tenant.id" := PyStr "acme" ]}, MoreSamples.with_tenant).
Proof.
  rewrite (with_baggage_present {[ "tenant.id" := PyStr "acme" ]} current_baggage
             MoreSamples.with_tenant).
  - reflexivity.
  - by apply map_Forall_singleton.
  - by apply map_Forall_singleton.
Defined.

End ScopeMore.

(** ** Manual spans *)

Module SpanMore.
Import ScopeFacts WrapperFacts ScopeMore SpanScope Samples.

(** [with span(name)] runs its body in the entered runtime and leaves through
    the exit steps, whatever the body does. *)
Lemma span_run {A} span_name (body : TraceContext → M A) rt :
  span span_name body rt
  = ((body (mkTraceContext (span_context (opened span_name rt))) (entered span_name rt)).1,
     exited span_name rt
       (body (mkTraceContext (span_context (opened span_name rt))) (entered span_name rt)).1
       (body (mkTraceContext (span_context (opened span_name rt))) (entered span_name rt)).2).
Proof.
  unfold span, run_in_operation_context, start_as_current_span, start_span, use_span,
    exited, entered, opened.
  unfold mbind, M_bind, mret, M_ret, get_operation, modify, try_finally, on_error,
    get_current, attach, detach, generate_id, record_exception, set_status, update_span.
  destruct rt as [[sp bag] op ids live fin names]. cbn.
  destruct sp as [p|]; cbn;
    destruct (body _ _) as [[v|e] rt2]; cbn; unfold end_span; cbn;
    try (rewrite alter_alter_eq;
         match goal with |- context [alter (?f ∘ ?g) _ _] =>
           change (f ∘ g) with (hooked e) end);
    match goal with |- context [?m !! ?k] => destruct (m !! k) end; reflexivity.
Qed.

Lemma exited_current {A} span_name rt (out : outcome A) rt2 :
  rt_current (exited span_name rt out rt2) = rt_current rt.
Proof.
  unfold exited, end_span. destruct out; cbn;
    match goal with |- context [?m !! ?k] => by destruct (m !! k) end.
Qed.

(** X9.  Whatever the body of [with span(name)] does and however it ends: its
    outcome is the outcome of the scope, and the context that was current
    before the scope is current after it.  Inside, the span handed to the
    body is the current span, the baggage is the one from outside, and the
    span is in the trace of the span that was current outside, or starts a
    trace when there was none. *)
Theorem span_scope {A} span_name (body : TraceContext → M A) rt :
  let h := span_context (opened span_name rt) in
  (span span_name body rt).1 = (body (mkTraceContext h) (entered span_name rt)).1
  ∧ rt_current (span span_name body rt).2 = rt_current rt
  ∧ (span span_name look_around rt).1
    = Return (Some h, get_all (rt_current rt), h)
  ∧ trace_id h = match ctx_span (rt_current rt) with
                 | Some p => trace_id p
                 | None => rt_ids rt
                 end.
Proof.
  cbv zeta. rewrite !span_run. cbn [fst snd]. split_and!.
  - done.
  - apply exited_current.
  - unfold look_around, entered, mbind, M_bind, mret, M_ret, get_current. by cbn.
  - unfold opened. by destruct (ctx_span _).
Qed.

Lemma handle_body_run ops out ctx rt :
  handle_body ops out ctx rt
  = (out, set_live (alter (span_after_ops ops) (span_id (otel_span ctx)) (rt_live rt)) rt).
Proof.
  unfold handle_body, mbind, M_bind. rewrite for_each_ops. by destruct out.
Qed.

(** A scope whose body works through its handle: the one span it opens ends
    up with the exporter and the rest of the runtime is as before, apart from
    the identifiers used. *)
Lemma span_handle_run span_name ops out rt :
  span span_name (handle_body ops out) rt
  = (out,
     mkRuntime (rt_current rt) (rt_operation rt)
       (N.succ (span_id (span_context (opened span_name rt))))
       (delete (span_id (span_context (opened span_name rt))) (rt_live rt))
       (rt_finished rt ++ [exported out (span_after_ops ops (opened span_name rt))])
       (rt_names rt)).
Proof.
  rewrite span_run, handle_body_run. cbn [fst snd otel_span]. f_equal.
  unfold exited, entered, end_span. cbn [rt_live rt_current set_live set_current].
  rewrite alter_insert_eq.
  destruct out as [v|e];
    cbn [rt_live rt_current rt_finished rt_ids rt_operation rt_names
         set_live set_current set_finished set_operation exported].
  - rewrite lookup_insert_eq.
    cbn [rt_live rt_current rt_finished rt_ids rt_operation rt_names
         set_live set_current set_finished set_operation snd].
    by rewrite delete_insert_eq.
  - rewrite alter_insert_eq, lookup_insert_eq.
    cbn [rt_live rt_current rt_finished rt_ids rt_operation rt_names
         set_live set_current set_finished set_operation snd].
    by rewrite delete_insert_eq.
Qed.

Lemma span_after_ops_attributes ops s key :
  attributes (span_after_ops ops s) !! key
  = match last_write key ops with
    | Some v => Some v
    | None => attributes s !! key
    end.
Proof.
  revert s. induction ops as [|[k v|ev] ops IH]; intros s; [done|..];
    change (span_after_ops (?op :: ops) s) with (span_after_ops ops (op_on_span op s));
    rewrite IH; cbn [last_write].
  - destruct (last_write key ops); [done|]. cbn.
    destruct (decide (key = k)) as [->|Hne].
    + by rewrite lookup_insert_eq.
    + by rewrite lookup_insert_ne.
  - by destruct (last_write key ops).
Qed.

Lemma span_after_ops_added ops s :
  events (span_after_ops ops s) = events s ++ added_events ops.
Proof.
  revert s. induction ops as [|[k v|ev] ops IH]; intros s.
  - cbn. by rewrite app_nil_r.
  - change (span_after_ops (?op :: ops) s) with (span_after_ops ops (op_on_span op s)).
    by rewrite IH.
  - change (span_after_ops (?op :: ops) s) with (span_after_ops ops (op_on_span op s)).
    rewrite IH. cbn. by rewrite <- app_assoc.
Qed.

Lemma span_after_ops_identity ops s :
  span_context (span_after_ops ops s) = span_context s
  ∧ parent (span_after_ops ops s) = parent s.
Proof.
  revert s. induction ops as [|op ops IH]; intros s; [done|].
  change (span_after_ops (op :: ops) s) with (span_after_ops ops (op_on_span op s)).
  destruct (IH (op_on_span op s)) as [-> ->]. by destruct op.
Qed.

(** X10.  A body that writes through its handle and returns: the scope returns the
    same value and hands the exporter exactly one span, with the name given,
    no status, the current span of outside as parent, for every key the value
    written last, and the events in the order they were added. *)
Theorem span_records span_name ops v rt :
  ∃ sp,
    span span_name (handle_body ops (Return v)) rt
    = (Return v,
       mkRuntime (rt_current rt) (rt_operation rt) (N.succ (span_id (span_context sp)))
         (delete (span_id (span_context sp)) (rt_live rt)) (rt_finished rt ++ [sp])
         (rt_names rt))
    ∧ name sp = span_name
    ∧ status sp = mkStatus UNSET None
    ∧ parent sp = ctx_span (rt_current rt)
    ∧ (∀ key, attributes sp !! key = last_write key ops)
    ∧ events sp = added_events ops.
Proof.
  exists (span_after_ops ops (opened span_name rt)).
  rewrite span_handle_run. cbn [exported].
  destruct (span_after_ops_identity ops (opened span_name rt)) as [Hctx Hpar].
  rewrite Hctx. split_and!.
  - done.
  - by rewrite span_after_ops_name, opened_name.
  - by rewrite span_after_ops_status, opened_status.
  - rewrite Hpar. unfold opened. by destruct (ctx_span _).
  - intros key. rewrite span_after_ops_attributes.
    destruct (last_write key ops); [done|]. unfold opened. by destruct (ctx_span _).
  - rewrite span_after_ops_added. unfold opened. by destruct (ctx_span _).
Qed.

Lemma hooked_not_ok e s :
  status_code (status s) ≠ OK →
  hooked e s
  = mkSpan (name s) (span_context s) (parent s)
      (mkStatus ERROR (Some (exn_type e +:+ ": " +:+ exn_msg e)))
      (attributes s) (events s ++ [exception_event e]).
Proof.
  intros Hs. unfold hooked. cbn [status]. by rewrite bool_decide_eq_false_2.
Qed.


Lemma exported_identity {A} (out : outcome A) s :
  name (exported out s) = name s
  ∧ span_context (exported out s) = span_context s
  ∧ parent (exported out s) = parent s.
Proof.
  destruct out as [v|e]; [done|]. cbn. unfold hooked. cbn.
  by destruct (bool_decide _ || bool_decide _).
Qed.

Lemma exported_status {A} (out : outcome A) s :
  status s = mkStatus UNSET None →
  status_code (status (exported out s)) = if is_return out then UNSET else ERROR.
Proof.
  intros Hs. destruct out as [v|e]; cbn; [by rewrite Hs|].
  rewrite hooked_not_ok by by rewrite Hs. done.
Qed.

(** X12.  A span opened inside the scope of another one is its child: it has the
    outer span as parent, the same trace id and another span id, and it
    reaches the exporter first.  An exception of the inner body crosses both
    scopes, so both spans end with the ERROR status; after a normal return
    neither has a status. *)
Theorem span_nested outer_name inner_name ops out rt :
  let program := span outer_name (λ _, span inner_name (handle_body ops out)) in
  ∃ inner_sp outer_sp,
    (program rt).1 = out
    ∧ rt_finished (program rt).2 = rt_finished rt ++ [inner_sp; outer_sp]
    ∧ name inner_sp = inner_name ∧ name outer_sp = outer_name
    ∧ parent inner_sp = Some (span_context outer_sp)
    ∧ parent outer_sp = ctx_span (rt_current rt)
    ∧ trace_id (span_context inner_sp) = trace_id (span_context outer_sp)
    ∧ span_id (span_context inner_sp) ≠ span_id (span_context outer_sp)
    ∧ status_code (status inner_sp) = (if is_return out then UNSET else ERROR)
    ∧ status_code (status outer_sp) = (if is_return out then UNSET else ERROR).
Proof.
  cbv zeta.
  exists (exported out (span_after_ops ops (opened inner_name (entered outer_name rt)))),
    (exported out (opened outer_name rt)).
  rewrite span_run, span_handle_run. cbn [fst snd].
  destruct (exported_identity out (span_after_ops ops (opened inner_name (entered outer_name rt))))
    as (Hn1 & Hc1 & Hp1).
  destruct (exported_identity out (opened outer_name rt)) as (Hn2 & Hc2 & Hp2).
  destruct (span_after_ops_identity ops (opened inner_name (entered outer_name rt)))
    as [Hc3 Hp3].
  rewrite Hn1, Hc1, Hp1, Hn2, Hc2, Hp2, Hc3, Hp3, span_after_ops_name, !opened_name.
  assert (Hids : span_id (span_context (opened inner_name (entered outer_name rt)))
                 = N.succ (span_id (span_context (opened outer_name rt)))) by reflexivity.
  split_and!; try done.
  - unfold exited, end_span.
    cbn [rt_live rt_current rt_finished rt_ids rt_operation rt_names
         set_live set_current set_finished set_operation].
    rewrite Hids. unfold entered. cbn [rt_live rt_finished].
    destruct out as [v|e];
      cbn [rt_live rt_current rt_finished rt_ids rt_operation rt_names
           set_live set_current set_finished set_operation exported].
    + rewrite lookup_delete_ne by lia. rewrite lookup_insert_eq.
      cbn [rt_finished set_finished set_operation snd]. by rewrite <- app_assoc.
    + rewrite lookup_alter_eq, lookup_delete_ne by lia. rewrite lookup_insert_eq.
      cbn [rt_finished set_finished set_operation snd fmap option_fmap option_map].
      by rewrite <- app_assoc.
  - unfold opened. by destruct (ctx_span _).
  - rewrite Hids. lia.
  - apply exported_status. by rewrite span_after_ops_status, opened_status.
  - apply exported_status, opened_status.
Qed.

(** X7.  A baggage scope keeps the trace: a span opened in a [with_baggage] scope
    reaches the exporter as the same span, with the same parent and the same
    identifiers, as when it is opened without the scope, and it ends the same
    way. *)
Theorem with_baggage_keeps_trace (baggage : gmap string pyval) span_name ops out rt :
  (with_baggage baggage (span span_name (handle_body ops out)) rt).1
  = (span span_name (handle_body ops out) rt).1
  ∧ rt_finished (with_baggage baggage (span span_name (handle_body ops out)) rt).2
    = rt_finished (span span_name (handle_body ops out) rt).2
  ∧ (with_baggage baggage (trace_id_of_new_span span_name) rt).1
    = (trace_id_of_new_span span_name rt).1.
Proof.
  split_and!.
  - by rewrite with_baggage_run, !span_handle_run.
  - by rewrite with_baggage_run, !span_handle_run.
  - by rewrite with_baggage_run, !new_span_trace_id.
Qed.

(** X8.  A root-context scope starts clean: inside it the baggage is empty, a
    baggage scope shows the given entries only, and a span opened there has
    no parent and starts a trace with a new identifier; nesting the scope in
    itself changes nothing. *)
Theorem with_new_context_starts_clean {A} (baggage : gmap string pyval) span_name ops out
    (body : M A) rt :
  (with_new_context current_baggage rt).1 = Return ∅
  ∧ (with_new_context (with_baggage baggage current_baggage) rt).1
    = Return (stored <$> baggage)
  ∧ (∃ sp, rt_finished (with_new_context (span span_name (handle_body ops out)) rt).2
           = rt_finished rt ++ [sp]
           ∧ parent sp = None
           ∧ trace_id (span_context sp) = rt_ids rt)
  ∧ with_new_context (with_new_context body) rt = with_new_context body rt.
Proof.
  split_and!.
  - by rewrite with_new_context_run.
  - rewrite with_new_context_run, with_baggage_run.
    unfold current_baggage, mbind, M_bind, mret, M_ret, get_current, baggage_scope,
      get_all, empty_context.
    cbn [fst snd rt_current set_current ctx_baggage].
    by rewrite (right_id_L ∅ (∪)).
  - eexists. rewrite with_new_context_run, span_handle_run.
    cbn [fst snd rt_finished set_current]. split; [reflexivity|].
    destruct (exported_identity out (span_after_ops ops
                (opened span_name (set_current empty_context rt)))) as (_ & -> & ->).
    destruct (span_after_ops_identity ops (opened span_name (set_current empty_context rt)))
      as [-> ->].
    done.
  - rewrite !with_new_context_run. cbn [fst snd]. by rewrite !set_current_twice.
Qed.

End SpanMore.

(** ** More on name inference *)

Module NameMore.
Import Text TextFacts LruFacts NameFacts Samples.

Lemma all_drop_while p t : all_chars p t = true → drop_while p t = EmptyString.
Proof.
  induction t as [|c t IH]; [done|]. cbn. intros [Hc Ht]%andb_prop. rewrite Hc. auto.
Qed.

Lemma all_rdrop_while p t : all_chars p t = true → rdrop_while p t = EmptyString.
Proof.
  induction t as [|c t IH]; [done|]. cbn. intros [Hc Ht]%andb_prop.
  by rewrite IH, Hc.
Qed.

Lemma drop_while_blanks p sp s : all_chars p sp = true → drop_while p (sp +:+ s) = drop_while p s.
Proof.
  induction sp as [|c sp IH]; [done|]. cbn [all_chars]. intros [Hc Ht]%andb_prop.
  rewrite app_cons. cbn [drop_while]. rewrite Hc. auto.
Qed.

Lemma rdrop_while_blanks p s t :
  all_chars p t = true → rdrop_while p (s +:+ t) = rdrop_while p s.
Proof.
  intros Ht. induction s as [|c s IH].
  - rewrite app_empty. by apply all_rdrop_while.
  - rewrite app_cons. cbn [rdrop_while]. by rewrite IH.
Qed.

Lemma strip_trailing s t :
  all_chars is_space t = true → strip (s +:+ t) = strip s.
Proof.
  intros Ht. unfold strip. induction s as [|c s IH].
  - rewrite app_empty. by rewrite all_drop_while.
  - rewrite app_cons. cbn [drop_while]. destruct (is_space c); [exact IH|].
    rewrite <- app_cons. by apply rdrop_while_blanks.
Qed.

Lemma strip_blanks sp1 sp2 line :
  all_chars is_space sp1 = true → all_chars is_space sp2 = true →
  strip (sp1 +:+ line +:+ sp2) = strip line.
Proof.
  intros H1 H2. unfold strip. rewrite drop_while_blanks by done.
  by apply strip_trailing.
Qed.

(** X13.  The indentation of the calling line and the blanks that end it, its line
    break included, have no part in the inferred name. *)
Theorem infer_name_ignores_blanks func back i1 i0 sp1 line sp2 more c :
  all_chars is_space sp1 = true → all_chars is_space sp2 = true →
  _infer_name func
    (Some (Frame (Some (Frame (Some (Frame back (Return (Some ((sp1 +:+ line +:+ sp2) :: more)))))
                          i1)) i0)) c
  = _infer_name func
      (Some (Frame (Some (Frame (Some (Frame back (Return (Some (line :: more))))) i1)) i0)) c.
Proof.
  intros H1 H2. unfold _infer_name, Lru.call, infer_name_uncached, call_site_name.
  cbn [f_back code_context]. by rewrite strip_blanks.
Qed.

(** A line indented by four blanks and ended by a line break names the same
    callable as the bare line. *)
Lemma infer_name_ignores_blanks_witness :
  _infer_name (anonymous 7)
    (MoreSamples.called_from ("    " +:+ "handler = trace(g)" +:+ String "010"%char EmptyString))
    Lru.empty
  = _infer_name (anonymous 7) (MoreSamples.called_from "handler = trace(g)") Lru.empty.
Proof.
  apply (infer_name_ignores_blanks (anonymous 7) None (Return None) (Return None)
           "    " "handler = trace(g)" (String "010"%char EmptyString) [] Lru.empty);
    reflexivity.
Defined.





(** X16.  For a function with a declared name the cache changes nothing: after any
    run of lookups from the empty cache in which its identity stands for
    functions of that name only, it gets its declared name, at any call site. *)
Theorem declared_name_always func stack n calls :
  fn_name func = Some n → n ≠ "<lambda>" →
  Forall (λ call, fn_id call.1 = fn_id func → fn_name call.1 = Some n) calls →
  (_infer_name func stack (infer_names calls Lru.empty)).1 = n.
Proof.
  intros Hn Hne Hall.
  assert (Hdecl : ∀ g s, fn_name g = Some n → infer_name_uncached g s = n).
  { intros g s Hg. unfold infer_name_uncached, declared_name. rewrite Hg.
    by rewrite bool_decide_eq_true_2. }
  assert (Hinv : ∀ c, Forall (λ e, e.1 = fn_id func → e.2 = n) (Lru.entries c) →
            Forall (λ e, e.1 = fn_id func → e.2 = n) (Lru.entries (infer_names calls c))).
  { induction calls as [|[g s] calls IH]; intros c Hc; [done|].
    apply Forall_cons in Hall as [Hg Hall]. rewrite infer_names_cons.
    apply IH; [done|]. unfold _infer_name, Lru.call.
    destruct (Lru.find (fn_id g) (Lru.entries c)) as [v|] eqn:E; cbn [snd Lru.entries].
    - apply Forall_app. split.
      + rewrite Forall_forall in Hc |- *. intros e He. apply Hc.
        clear -He. induction (Lru.entries c) as [|[k' v'] l IHl]; [done|].
        cbn in He. destruct (decide (fn_id g = k')).
        * apply elem_of_cons. right. auto.
        * apply elem_of_cons in He as [->|He]; [left | right; auto].
      + apply Forall_singleton. cbn. intros Hid.
        rewrite Forall_forall in Hc. apply (Hc (fn_id g, v)); [|done].
        clear -E. induction (Lru.entries c) as [|[k' v'] l IHl]; [done|].
        cbn in E. destruct (decide (fn_id g = k')) as [<-|].
        * injection E as ->. left.
        * right. auto.
    - apply Forall_app. split.
      + unfold Lru.make_room. destruct (_ <? _)%nat; [done|].
        destruct (Lru.entries c); [done|]. by apply Forall_cons in Hc as [_ Hc].
      + apply Forall_singleton. cbn. intros Hid. apply Hdecl. auto. }
  specialize (Hinv Lru.empty (Forall_nil_2 _)).
  destruct (Lru.find (fn_id func) (Lru.entries (infer_names calls Lru.empty))) as [v|] eqn:E.
  - rewrite (infer_name_hit _ _ _ _ E). rewrite Forall_forall in Hinv.
    apply (Hinv (fn_id func, v)); [|done].
    clear -E. induction (Lru.entries _) as [|[k' v'] l IHl]; [done|].
    cbn in E. destruct (decide (fn_id func = k')) as [<-|].
    + injection E as ->. left.
    + right. auto.
  - rewrite infer_name_miss by done. by apply Hdecl.
Qed.

(** [create_user] is looked up after the lambda with another identity was
    named at an assignment and after 1030 further lookups: it gets its own
    name, not the one of the call site. *)
Lemma declared_name_always_witness :
  (_infer_name create_user (MoreSamples.called_from "handler = trace(create_user)")
     (infer_names ((anonymous 7, MoreSamples.called_from "handler = trace(g)")
                   :: ((λ i, (named (N.of_nat i), None)) <$> seq 10 1030)) Lru.empty)).1
  = "create_user".
Proof.
  apply (declared_name_always create_user
           (MoreSamples.called_from "handler = trace(create_user)") "create_user"
           ((anonymous 7, MoreSamples.called_from "handler = trace(g)")
            :: ((λ i, (named (N.of_nat i), None)) <$> seq 10 1030))).
  - reflexivity.
  - discriminate.
  - refine (bool_decide_unpack _ _). vm_compute. exact I.
Defined.

Lemma call_keys_nodup {V} m (f : N → V) k (c : Lru.cache N V) :
  NoDup (Lru.entries c).*1 → NoDup (Lru.entries (Lru.call m f k c).2).*1.
Proof.
  intros Hnd. unfold Lru.call.
  destruct (Lru.find k (Lru.entries c)) as [v|] eqn:E; cbn [snd Lru.entries];
    rewrite fmap_app; apply NoDup_app; (split_and!; [| |apply NoDup_singleton]).
  - rewrite remove_keys. by apply NoDup_filter.
  - rewrite remove_keys. by intros x [Hne _]%list_elem_of_filter Hin%list_elem_of_singleton.
  - unfold Lru.make_room. destruct (_ <? _)%nat; [done|].
    destruct (Lru.entries c) as [|e l]; [done|]. by apply NoDup_cons in Hnd as [_ Hnd].
  - apply find_none_keys in E. unfold Lru.make_room.
    intros x Hx ->%list_elem_of_singleton. apply E.
    destruct (_ <? _)%nat; [done|]. destruct (Lru.entries c) as [|e l]; [done|].
    rewrite fmap_cons. right. exact Hx.
Qed.

Lemma call_keys_subset {V} m (f : N → V) k (c : Lru.cache N V) x :
  x ∈ (Lru.entries (Lru.call m f k c).2).*1 → x = k ∨ x ∈ (Lru.entries c).*1.
Proof.
  unfold Lru.call.
  destruct (Lru.find k (Lru.entries c)) as [v|] eqn:E; cbn [snd Lru.entries];
    rewrite fmap_app, elem_of_app.
  - rewrite remove_keys.
    intros [[_ Hx]%list_elem_of_filter | ->%list_elem_of_singleton]; auto.
  - unfold Lru.make_room. intros [Hx | ->%list_elem_of_singleton]; [right | by left].
    destruct (_ <? _)%nat; [done|]. destruct (Lru.entries c) as [|e l]; [done|].
    rewrite fmap_cons. right. exact Hx.
Qed.

Lemma call_counts {V} m (f : N → V) k (c : Lru.cache N V) :
  Lru.lookups (Lru.call m f k c).2 = S (Lru.lookups c)
  ∧ ((Lru.currsize c ≤ Lru.misses c)%nat →
     (Lru.currsize (Lru.call m f k c).2 ≤ Lru.misses (Lru.call m f k c).2)%nat).
Proof.
  unfold Lru.lookups, Lru.currsize, Lru.call.
  destruct (Lru.find k (Lru.entries c)) as [v|] eqn:E;
    cbn [snd Lru.entries Lru.hits Lru.misses]; rewrite length_app; cbn [length].
  - split; [lia|]. pose proof (length_remove_hit _ _ _ E). lia.
  - split; [lia|]. unfold Lru.make_room. destruct (_ <? _)%nat; [lia|].
    destruct (Lru.entries c); cbn; lia.
Qed.

(** X17.  The cache grown from the empty one by any run of lookups holds each
    callable at most once, and only callables that were looked up; every
    lookup was counted as a hit or as a miss, and the cache holds no more
    entries than there were misses. *)
Theorem cache_never_duplicates calls :
  let c := infer_names calls Lru.empty in
  NoDup (Lru.entries c).*1
  ∧ (∀ k, k ∈ (Lru.entries c).*1 → k ∈ looked_up calls)
  ∧ (Lru.hits c + Lru.misses c)%nat = length calls
  ∧ (Lru.currsize c ≤ Lru.misses c)%nat
  ∧ (Lru.currsize c ≤ size (looked_up calls))%nat.
Proof.
  cbv zeta.
  assert (Hgen : ∀ c0 : Lru.cache N string,
            NoDup (Lru.entries c0).*1 → (Lru.currsize c0 ≤ Lru.misses c0)%nat →
            NoDup (Lru.entries (infer_names calls c0)).*1
            ∧ (∀ k, k ∈ (Lru.entries (infer_names calls c0)).*1 →
                    k ∈ (Lru.entries c0).*1 ∨ k ∈ looked_up calls)
            ∧ Lru.lookups (infer_names calls c0) = (Lru.lookups c0 + length calls)%nat
            ∧ (Lru.currsize (infer_names calls c0) ≤ Lru.misses (infer_names calls c0))%nat).
  { induction calls as [|[g s] calls IH]; intros c0 Hnd Hsz.
    - cbn. split_and!; [done | by left | lia | done].
    - rewrite infer_names_cons. unfold _infer_name.
      destruct (call_counts maxsize (λ _, infer_name_uncached g s) (fn_id g) c0)
        as [Hlook Hcur].
      destruct (IH (Lru.call maxsize (λ _, infer_name_uncached g s) (fn_id g) c0).2)
        as (H1 & H2 & H3 & H4); [by apply call_keys_nodup | by apply Hcur |].
      split_and!; [done | | rewrite H3, Hlook; cbn; lia | done].
      intros k Hk. rewrite looked_up_cons, elem_of_union, elem_of_singleton.
      destruct (H2 k Hk) as [Hin | Hin]; [|by right; right].
      apply call_keys_subset in Hin as [-> | Hin]; [right; by left | by left]. }
  destruct (Hgen Lru.empty) as (H1 & H2 & H3 & H4); [apply NoDup_nil_2 | done |].
  assert (Hsub : ∀ k, k ∈ (Lru.entries (infer_names calls Lru.empty)).*1 →
                      k ∈ looked_up calls).
  { intros k Hk. destruct (H2 k Hk) as [Hin | Hin]; [|done]. by apply elem_of_nil in Hin. }
  split_and!; [done | done | exact H3 | done |].
  unfold Lru.currsize. rewrite <- (length_fmap fst), <- (size_list_to_set (C := gset N)) by done.
  apply subseteq_size. intros k Hk. apply elem_of_list_to_set in Hk. by apply Hsub.
Qed.

End NameMore.
